(** * Inflammatory Resilience Index pipeline: cohort construction, harmonization
    and mortality linkage.

    Shallow embedding of [scripts/02_build_cohort.py],
    [scripts/02_harmonize_iri.py] and [scripts/03_link_mortality.py].

    Numbers.  A pandas float cell is modelled by [fval]: NaN (which pandas also
    uses for "missing"), the two infinities, or a finite value.  Finite values
    are exact rationals: the special values of IEEE arithmetic are modelled,
    rounding is not.  Signed zeros are not distinguished.  The transcendental
    functions of numpy ([np.log], [**], the square root inside [Series.std])
    are taken as an interface, [RealOps]. *)

From Stdlib Require Import String Ascii.
From Stdlib Require Import QArith Qabs Qround Qpower Qminmax ZArith List Sorted Bool Lia Lqa.
Import ListNotations.
Open Scope Q_scope.

(* ------------------------------------------------------------------------- *)
(** ** Float cells *)

Inductive fval : Type :=
| FNaN
| FInf (neg : bool)
| FFin (q : Q).

Definition Qlt_bool (a b : Q) : bool := negb (Qle_bool b a).

Definition Qneg (q : Q) : bool := Qlt_bool q 0.

(** [Series.isna] / [Series.notna] on one cell. *)
Definition isna (x : fval) : bool :=
  match x with FNaN => true | _ => false end.

Definition notna (x : fval) : bool := negb (isna x).

Definition isinf (x : fval) : bool :=
  match x with FInf _ => true | _ => false end.

(** Equality of cells up to the representation of the rational. *)
Definition feq (x y : fval) : Prop :=
  match x, y with
  | FNaN, FNaN => True
  | FInf a, FInf b => a = b
  | FFin p, FFin q => p == q
  | _, _ => False
  end.

Definition fneg (x : fval) : fval :=
  match x with
  | FNaN => FNaN
  | FInf s => FInf (negb s)
  | FFin q => FFin (- q)
  end.

Definition fadd (x y : fval) : fval :=
  match x, y with
  | FNaN, _ | _, FNaN => FNaN
  | FInf a, FInf b => if Bool.eqb a b then FInf a else FNaN
  | FInf a, FFin _ => FInf a
  | FFin _, FInf b => FInf b
  | FFin p, FFin q => FFin (p + q)
  end.

Definition fsub (x y : fval) : fval :=
  match x, y with
  | FNaN, _ | _, FNaN => FNaN
  | FInf a, FInf b => if Bool.eqb a b then FNaN else FInf a
  | FInf a, FFin _ => FInf a
  | FFin _, FInf b => FInf (negb b)
  | FFin p, FFin q => FFin (p - q)
  end.

Definition fmul (x y : fval) : fval :=
  match x, y with
  | FNaN, _ | _, FNaN => FNaN
  | FInf a, FInf b => FInf (xorb a b)
  | FInf a, FFin q => if Qeq_bool q 0 then FNaN else FInf (xorb a (Qneg q))
  | FFin p, FInf b => if Qeq_bool p 0 then FNaN else FInf (xorb (Qneg p) b)
  | FFin p, FFin q => FFin (p * q)
  end.

(** numpy float division: [x / 0] is an infinity for [x <> 0] and NaN for
    [0 / 0]; no exception is raised. *)
Definition fdiv (x y : fval) : fval :=
  match x, y with
  | FNaN, _ | _, FNaN => FNaN
  | FInf _, FInf _ => FNaN
  | FInf a, FFin q => FInf (xorb a (Qneg q))
  | FFin _, FInf _ => FFin 0
  | FFin p, FFin q =>
      if Qeq_bool q 0
      then (if Qeq_bool p 0 then FNaN else FInf (Qneg p))
      else FFin (p / q)
  end.

(** Comparisons: every comparison with NaN is False. *)
Definition fle (x y : fval) : bool :=
  match x, y with
  | FNaN, _ | _, FNaN => false
  | FInf a, FInf b => orb a (negb b)
  | FInf a, FFin _ => a
  | FFin _, FInf b => negb b
  | FFin p, FFin q => Qle_bool p q
  end.

Definition flt (x y : fval) : bool :=
  match x, y with
  | FNaN, _ | _, FNaN => false
  | FInf a, FInf b => andb a (negb b)
  | FInf a, FFin _ => a
  | FFin _, FInf b => negb b
  | FFin p, FFin q => Qlt_bool p q
  end.

Definition fge (x y : fval) : bool := fle y x.
Definition fgt (x y : fval) : bool := flt y x.

Definition feqb (x y : fval) : bool :=
  match x, y with
  | FInf a, FInf b => Bool.eqb a b
  | FFin p, FFin q => Qeq_bool p q
  | _, _ => false
  end.

(** [np.minimum] / [np.maximum]: NaN if either argument is NaN. *)
Definition fminimum (x y : fval) : fval :=
  match x, y with
  | FNaN, _ | _, FNaN => FNaN
  | _, _ => if fle x y then x else y
  end.

Definition fmaximum (x y : fval) : fval :=
  match x, y with
  | FNaN, _ | _, FNaN => FNaN
  | _, _ => if fle x y then y else x
  end.

(** [bool.astype(int)] and [bool.astype(float)]: both give the numbers 0 and 1. *)
Definition of_bool (b : bool) : fval := if b then FFin 1 else FFin 0.

(** The truth value of an integer cell under [&]: 0/1 flags only. *)
Definition truthy (x : fval) : bool := feqb x (FFin 1).

Definition fZ (z : Z) : fval := FFin (inject_Z z).

(* ------------------------------------------------------------------------- *)
(** ** The transcendental functions of numpy

    [ln_q], [sqrt_q] and [pow_q] stand for the natural logarithm, the square
    root and the power function on the finite arguments where they are
    real-valued (positive, non-negative, positive base).  What the development
    uses of the square root is that it vanishes at 0 only. *)

Record RealOps : Type := {
  ln_q : Q -> Q;
  sqrt_q : Q -> Q;
  pow_q : Q -> Q -> Q;
  sqrt_q_zero : forall v, v == 0 -> sqrt_q v == 0;
  sqrt_q_pos : forall v, 0 < v -> 0 < sqrt_q v
}.

(** [np.log]: NaN for negatives, [-inf] at 0. *)
Definition flog (O : RealOps) (x : fval) : fval :=
  match x with
  | FNaN => FNaN
  | FInf s => if s then FNaN else FInf false
  | FFin q =>
      if Qlt_bool q 0 then FNaN
      else if Qeq_bool q 0 then FInf true
      else FFin (ln_q O q)
  end.

Definition fsqrt (O : RealOps) (x : fval) : fval :=
  match x with
  | FNaN => FNaN
  | FInf s => if s then FNaN else FInf false
  | FFin q => if Qlt_bool q 0 then FNaN else FFin (sqrt_q O q)
  end.

(** Whether a rational is an integer, and an odd one. *)
Definition Qis_int (q : Q) : bool :=
  Z.eqb (Z.modulo (Qnum q) (Z.pos (Qden q))) 0.

Definition Qis_odd_int (q : Q) : bool :=
  Qis_int q && Z.odd (Z.div (Qnum q) (Z.pos (Qden q))).

(** numpy's [**] on floats (C [pow]).  The order of the cases follows the
    standard: [x ** 0 = 1] and [1 ** y = 1] even for NaN, then NaN propagates,
    a negative base with a non-integer exponent is NaN, and zero to a negative
    power is infinite. *)
Definition fpow (O : RealOps) (x y : fval) : fval :=
  match x, y with
  | _, FFin e =>
      if Qeq_bool e 0 then FFin 1 else
      match x with
      | FNaN => FNaN
      | FFin b =>
          if Qeq_bool b 1 then FFin 1
          else if Qlt_bool 0 b then FFin (pow_q O b e)
          else if Qeq_bool b 0 then (if Qlt_bool e 0 then FInf false else FFin 0)
          else if Qis_int e
               then FFin ((if Qis_odd_int e then -(1) else 1) * pow_q O (- b) e)
               else FNaN
      | FInf s =>
          if Qlt_bool e 0 then FFin 0
          else FInf (s && Qis_odd_int e)
      end
  | FFin b, FNaN => if Qeq_bool b 1 then FFin 1 else FNaN
  | _, FNaN => FNaN
  | FNaN, FInf _ => FNaN
  | FFin b, FInf s =>
      if Qeq_bool (Qabs b) 1 then FFin 1
      else if xorb (Qlt_bool (Qabs b) 1) s then FFin 0 else FInf false
  | FInf _, FInf s => if s then FFin 0 else FInf false
  end.

(* ------------------------------------------------------------------------- *)
(** ** Series and their reductions

    A pandas Series is a map from the row label to a cell; every Series of a
    frame shares the frame's [RangeIndex], so element-wise operators align
    row by row. *)

Definition Series : Type := nat -> fval.

Definition nan_series : Series := fun _ => FNaN.
Definition const_series (x : fval) : Series := fun _ => x.

(** The cells of the first [n] rows. *)
Definition cells (n : nat) (s : Series) : list fval := map s (seq 0 n).

(** [df.loc[mask, col]]: the cells of the rows selected by a boolean mask. *)
Definition loc_cells (n : nat) (mask : nat -> bool) (s : Series) : list fval :=
  map s (filter mask (seq 0 n)).

(** [mask.sum()] *)
Definition mask_sum (n : nat) (mask : nat -> bool) : nat :=
  length (filter mask (seq 0 n)).

(** [df.loc[mask, col] = values] *)
Definition loc_assign (mask : nat -> bool) (values old : Series) : Series :=
  fun i => if mask i then values i else old i.

(** [Series.replace(0, np.nan)] on one cell. *)
Definition replace_zero_nan (x : fval) : fval :=
  if feqb x (FFin 0) then FNaN else x.

(** Reductions skip NaN ([skipna=True], the pandas default). *)
Definition nansum (l : list fval) : fval :=
  fold_left fadd (filter notna l) (FFin 0).

Definition count (l : list fval) : nat := length (filter notna l).

Definition fnat (n : nat) : fval := FFin (inject_Z (Z.of_nat n)).

(** [Series.mean()]: NaN when no cell is present. *)
Definition mean (l : list fval) : fval :=
  match count l with
  | O => FNaN
  | c => fdiv (nansum l) (fnat c)
  end.

(** [Series.var()] with [ddof=1]: NaN unless two cells at least are present;
    the squared deviations from the average are summed and divided by
    [count - 1]. *)
Definition var (l : list fval) : fval :=
  let c := count l in
  if Nat.leb c 1 then FNaN
  else
    let avg := fdiv (nansum l) (fnat c) in
    let sqr := map (fun v => fmul (fsub avg v) (fsub avg v)) (filter notna l) in
    fdiv (fold_left fadd sqr (FFin 0)) (fnat (c - 1)).

(** [Series.std()] *)
Definition std (O : RealOps) (l : list fval) : fval := fsqrt O (var l).

(** [Series.max()] skipping NaN; NaN when nothing is present. *)
Definition nanmax (l : list fval) : fval :=
  match filter notna l with
  | [] => FNaN
  | x :: t => fold_left fmaximum t x
  end.

(** [df[cols].sum(axis=1)], [.mean(axis=1)], [.max(axis=1)]: the reduction of
    each row over the selected columns, NaN skipped. *)
Definition row_cells (cs : list Series) (i : nat) : list fval :=
  map (fun c => c i) cs.

Definition sum_axis1 (cs : list Series) : Series := fun i => nansum (row_cells cs i).
Definition mean_axis1 (cs : list Series) : Series := fun i => mean (row_cells cs i).
Definition max_axis1 (cs : list Series) : Series := fun i => nanmax (row_cells cs i).

(* ------------------------------------------------------------------------- *)
(** ** Quantiles and quantile binning: [Series.quantile], [pd.qcut] *)

Fixpoint insert_sorted (x : fval) (l : list fval) : list fval :=
  match l with
  | [] => [x]
  | y :: t => if fle x y then x :: l else y :: insert_sorted x t
  end.

Definition sort_f (l : list fval) : list fval := fold_right insert_sorted [] l.

(** numpy's linear interpolation between two neighbours, [t] in [0, 1). *)
Definition lerp (a b : fval) (t : Q) : fval :=
  if Qle_bool (1 # 2) t
  then fsub b (fmul (fsub b a) (FFin (1 - t)))
  else fadd a (fmul (fsub b a) (FFin t)).

(** The [p]-quantile of the present cells, by linear interpolation at the
    virtual index [(n - 1) * p]; NaN when nothing is present. *)
Definition fquantile (present : list fval) (p : Q) : fval :=
  match sort_f present with
  | [] => FNaN
  | sorted =>
      let n := List.length sorted in
      let h := inject_Z (Z.of_nat (n - 1)) * p in
      let lo := Z.to_nat (Qfloor h) in
      let hi := Nat.min (lo + 1) (n - 1) in
      lerp (nth lo sorted FNaN) (nth hi sorted FNaN) (h - inject_Z (Qfloor h))
  end.

(** [np.linspace(0, 1, 5)] *)
Definition quartile_points : list Q := [0; 1 # 4; 1 # 2; 3 # 4; 1].

Definition qcut_edges (present : list fval) : list fval :=
  map (fquantile present) quartile_points.

Definition is_finite (x : fval) : bool :=
  match x with FFin _ => true | _ => false end.

(** Edges strictly increasing; otherwise pandas raises
    [ValueError: Bin edges must be unique]. *)
Fixpoint increasing (l : list fval) : bool :=
  match l with
  | a :: ((b :: _) as t) => flt a b && increasing t
  | _ => true
  end.

(** [searchsorted(bins, x, side='left')]: how many edges lie strictly below. *)
Definition searchsorted_left (bins : list fval) (x : fval) : nat :=
  List.length (filter (fun b => flt b x) bins).

(** The bucket of one cell when binning with right-closed intervals and
    [include_lowest=True]: a cell equal to the lowest edge goes to the first
    bucket, a cell equal to an inner edge to the bucket below that edge; a
    NaN cell, or one outside the edges, has no bucket. *)
Definition bucket (bins : list fval) (x : fval) : option nat :=
  let id := if feqb x (nth 0 bins FNaN) then 1%nat else searchsorted_left bins x in
  if isna x || Nat.eqb id 0 || Nat.eqb id (List.length bins)
  then None else Some (id - 1)%nat.

(** [pd.qcut(x, q=4, labels=labels)].  NaN cells are dropped before the
    quantiles are taken.  [None] is the [ValueError] raised when the edges
    are not unique, in particular when no cell is present.  Edges that are
    not finite arise only from an infinite cell, which the composite index
    never is ([iri_not_inf_cohort], [iri_not_inf_harmonize]); that case is
    counted with the error. *)
Definition qcut (n : nat) (x : Series) (labels : list string)
  : option (nat -> option string) :=
  let bins := qcut_edges (filter notna (cells n x)) in
  if forallb is_finite bins && increasing bins
  then Some (fun i =>
         match bucket bins (x i) with
         | Some b => nth_error labels b
         | None => None
         end)
  else None.

(* ------------------------------------------------------------------------- *)
(** ** Data frames

    A frame has a number of rows, its numeric columns and its categorical
    columns.  [df[k] = s] pushes a binding; a column's value is its most recent
    binding, so assigning to an existing name replaces the column.  String
    columns ([cycle]) are read by neither script of this section and are left
    out. *)

Record frame : Type := {
  nrows : nat;
  cols : list (string * Series);
  cats : list (string * (nat -> option string))
}.

Fixpoint assoc {A : Type} (k : string) (l : list (string * A)) : option A :=
  match l with
  | [] => None
  | (k', v) :: t => if String.eqb k k' then Some v else assoc k t
  end.

(** [k in df.columns] *)
Definition has_col (df : frame) (k : string) : bool :=
  match assoc k (cols df) with Some _ => true | None => false end.

(** [df.get(k, default)] *)
Definition get_or (df : frame) (k : string) (default : Series) : Series :=
  match assoc k (cols df) with Some s => s | None => default end.

Definition set_col (df : frame) (k : string) (s : Series) : frame :=
  {| nrows := nrows df; cols := (k, s) :: cols df; cats := cats df |}.

Definition set_cat (df : frame) (k : string) (s : nat -> option string) : frame :=
  {| nrows := nrows df; cols := cols df; cats := (k, s) :: cats df |}.

(** ['sub' in name] *)
Definition contains (sub name : string) : bool :=
  match String.index 0 sub name with Some _ => true | None => false end.

(** [[c for c in df.columns if p c]], as the Series they name: each column
    once, under its current binding. *)
Fixpoint select_from (p : string -> bool) (seen : list string)
  (l : list (string * Series)) : list Series :=
  match l with
  | [] => []
  | (k, v) :: t =>
      if p k && negb (existsb (String.eqb k) seen)
      then v :: select_from p (k :: seen) t
      else select_from p seen t
  end.

Definition select_cols (p : string -> bool) (df : frame) : list Series :=
  select_from p [] (cols df).

(** The script's computations over a frame: the frame is threaded through,
    and [None] is an exception ([KeyError] on [df[k]] for an absent column,
    [ValueError] from [pd.qcut]). *)
Definition M (A : Type) : Type := frame -> option (A * frame).

Definition ret {A : Type} (a : A) : M A := fun df => Some (a, df).

Definition bind {A B : Type} (m : M A) (f : A -> M B) : M B :=
  fun df => match m df with
            | Some (a, df') => f a df'
            | None => None
            end.

Notation "x <- m ;; k" := (bind m (fun x => k))
  (at level 61, m at next level, right associativity).
Notation "m ;;; k" := (bind m (fun _ => k))
  (at level 61, right associativity).

(** [df[k]] *)
Definition getc (k : string) : M Series :=
  fun df => match assoc k (cols df) with
            | Some s => Some (s, df)
            | None => None
            end.

(** [df.get(k, default)] *)
Definition getd (k : string) (default : Series) : M Series :=
  fun df => Some (get_or df k default, df).

(** [df[k] = s] *)
Definition setc (k : string) (s : Series) : M unit :=
  fun df => Some (tt, set_col df k s).

Definition setcat (k : string) (s : nat -> option string) : M unit :=
  fun df => Some (tt, set_cat df k s).

(** [len(df)] *)
Definition len : M nat := fun df => Some (nrows df, df).

(** The frame itself, for the helpers that take [df]. *)
Definition this : M frame := fun df => Some (df, df).

Definition raise_if_none {A : Type} (o : option A) : M A :=
  fun df => match o with Some a => Some (a, df) | None => None end.

(** Element-wise operators on Series. *)
Definition s_map (f : fval -> fval) (a : Series) : Series := fun i => f (a i).
Definition s_map2 (f : fval -> fval -> fval) (a b : Series) : Series :=
  fun i => f (a i) (b i).
Definition s_add := s_map2 fadd.
Definition s_sub := s_map2 fsub.
Definition s_mul := s_map2 fmul.
Definition s_div := s_map2 fdiv.
Definition s_scalar (f : fval -> fval -> fval) (a : Series) (c : fval) : Series :=
  fun i => f (a i) c.
Definition s_test (f : fval -> fval -> bool) (a : Series) (c : fval) : nat -> bool :=
  fun i => f (a i) c.

(** [(xs - m) / s] for scalars [m] and [s]. *)
Definition zscore (xs : Series) (m s : fval) : Series :=
  fun i => fdiv (fsub (xs i) m) s.

Fixpoint for_each {A : Type} (l : list A) (body : A -> M unit) : M unit :=
  match l with
  | [] => ret tt
  | a :: t => body a ;;; for_each t body
  end.

(* ------------------------------------------------------------------------- *)
(** ** [scripts/02_build_cohort.py] *)

(** [calculate_egfr_ckdepi2021(scr, age, sex)]: every sex code other than 2
    takes the male constants ([np.where(sex == 2, ..., ...)]). *)
Definition calculate_egfr_ckdepi2021 (O : RealOps) (scr age sex : Series) : Series :=
  fun i =>
    let kappa := if feqb (sex i) (FFin 2) then FFin (7 # 10) else FFin (9 # 10) in
    let alpha := if feqb (sex i) (FFin 2) then FFin (- (241 # 1000)) else FFin (- (302 # 1000)) in
    let female_mult := if feqb (sex i) (FFin 2) then FFin (1012 # 1000) else FFin 1 in
    let scr_kappa := fdiv (scr i) kappa in
    let term1 := fmul (FFin 142) (fpow O (fminimum scr_kappa (FFin 1)) alpha) in
    let term2 := fpow O (fmaximum scr_kappa (FFin 1)) (FFin (- (12 # 10))) in
    let term3 := fpow O (FFin (9938 # 10000)) (age i) in
    fmul (fmul (fmul term1 term2) term3) female_mult.

Definition alm_cols : list string :=
  ["DXDLALE"; "DXDRALE"; "DXDLLLE"; "DXDRLLE"]%string.

(** [calculate_alm(df)]: the four limb columns must exist in the frame;
    the row sum is [DataFrame.sum(axis=1)], which skips NaN cells. *)
Definition calculate_alm (df : frame) : Series :=
  let available := filter (has_col df) alm_cols in
  if Nat.eqb (List.length available) 4
  then
    let alm_g := sum_axis1 (map (fun c => get_or df c nan_series) available) in
    s_scalar fdiv alm_g (FFin 1000)
  else nan_series.

(** The divisor of the sex-specific standardization of the lean-mass index,
    when the script divides: [if std_almi > 0]. *)
Definition almi_divisor (O : RealOps) (n : nat) (sex almi : Series) (sex_val : fval)
  : option fval :=
  let mask := s_test feqb sex sex_val in
  let std_almi := std O (loc_cells n mask almi) in
  if fgt std_almi (FFin 0) then Some std_almi else None.

(** One turn of [for sex_val in [1, 2]]. *)
Definition z_almi_step (O : RealOps) (sex_val : fval) : M unit :=
  n <- len ;;
  sex <- getc "sex" ;;
  almi <- getc "almi" ;;
  z <- getc "z_almi" ;;
  let mask := s_test feqb sex sex_val in
  let mean_almi := mean (loc_cells n mask almi) in
  match almi_divisor O n sex almi sex_val with
  | Some std_almi => setc "z_almi" (loc_assign mask (zscore almi mean_almi std_almi) z)
  | None => ret tt
  end.

Definition is_sbp_col (c : string) : bool := contains "BPXSY" c || contains "BPXOSY" c.
Definition is_dbp_col (c : string) : bool := contains "BPXDI" c || contains "BPXODI" c.

(** [s.isin([1, 2])] *)
Definition isin12 (x : fval) : bool := feqb x (FFin 1) || feqb x (FFin 2).

Definition quartile_labels_cohort : list string := ["Q1"; "Q2"; "Q3"; "Q4"]%string.

(** [build_iri_cohort(df)], statement by statement. *)
Definition build_iri_cohort (O : RealOps) : M unit :=
  n <- len ;;
  (* Demographics *)
  x <- getc "RIDAGEYR" ;; setc "age" x ;;;
  x <- getc "RIAGENDR" ;; setc "sex" x ;;;
  sex <- getc "sex" ;;
  setc "female" (fun i => of_bool (feqb (sex i) (FFin 2))) ;;;
  x <- getd "RIDRETH3" nan_series ;; setc "race_eth" x ;;;
  (* Survey design *)
  w0 <- getd "WTMECPRP" nan_series ;;
  x <- getd "WTMEC2YR" w0 ;; setc "mec_weight" x ;;;
  x <- getc "SDMVPSU" ;; setc "psu" x ;;;
  x <- getc "SDMVSTRA" ;; setc "strata" x ;;;
  (* IRI components *)
  x <- getd "LBXHSCRP" nan_series ;; setc "hscrp" x ;;;
  x <- getd "LBXSAL" nan_series ;; setc "albumin" x ;;;
  df <- this ;; setc "alm_kg" (calculate_alm df) ;;;
  x <- getd "BMXHT" nan_series ;; setc "height_m" (s_scalar fdiv x (FFin 100)) ;;;
  alm_kg <- getc "alm_kg" ;; height_m <- getc "height_m" ;;
  setc "almi" (s_div alm_kg (s_mul height_m height_m)) ;;;
  (* z-scores *)
  hscrp <- getc "hscrp" ;;
  setc "log_hscrp" (fun i => flog O (replace_zero_nan (hscrp i))) ;;;
  log_hscrp <- getc "log_hscrp" ;;
  let mean_log_crp := mean (cells n log_hscrp) in
  let std_log_crp := std O (cells n log_hscrp) in
  setc "z_crp" (zscore log_hscrp mean_log_crp std_log_crp) ;;;
  z_crp <- getc "z_crp" ;;
  setc "z_crp_inv" (s_scalar fmul z_crp (FFin (- (1)))) ;;;
  albumin <- getc "albumin" ;;
  let mean_alb := mean (cells n albumin) in
  let std_alb := std O (cells n albumin) in
  setc "z_albumin" (zscore albumin mean_alb std_alb) ;;;
  setc "z_almi" nan_series ;;;
  for_each [FFin 1; FFin 2] (z_almi_step O) ;;;
  (* Modified IRI *)
  z_crp_inv <- getc "z_crp_inv" ;; z_albumin <- getc "z_albumin" ;;
  z_almi <- getc "z_almi" ;;
  setc "iri" (s_add (s_add z_crp_inv z_albumin) z_almi) ;;;
  iri <- getc "iri" ;;
  q <- raise_if_none (qcut n iri quartile_labels_cohort) ;;
  setcat "iri_quartile" q ;;;
  (* Covariates *)
  x <- getd "BMXBMI" nan_series ;; setc "bmi" x ;;;
  bmi <- getc "bmi" ;;
  setc "obesity" (fun i => of_bool (fge (bmi i) (FFin 30))) ;;;
  df <- this ;;
  let sbp_cols := select_cols is_sbp_col df in
  let dbp_cols := select_cols is_dbp_col df in
  setc "mean_sbp" (match sbp_cols with [] => nan_series | _ => mean_axis1 sbp_cols end) ;;;
  setc "mean_dbp" (match dbp_cols with [] => nan_series | _ => mean_axis1 dbp_cols end) ;;;
  bp_med <- getd "BPQ040A" nan_series ;;
  mean_sbp <- getc "mean_sbp" ;; mean_dbp <- getc "mean_dbp" ;;
  setc "hypertension"
    (fun i => of_bool (fge (mean_sbp i) (FFin 130) || fge (mean_dbp i) (FFin 80)
                       || feqb (bp_med i) (FFin 1))) ;;;
  hba1c <- getd "LBXGH" nan_series ;;
  glucose <- getd "LBXGLU" nan_series ;;
  dm_told <- getd "DIQ010" nan_series ;;
  setc "hba1c" hba1c ;;;
  setc "diabetes"
    (fun i => of_bool (fge (hba1c i) (FFin (65 # 10)) || fge (glucose i) (FFin 126)
                       || feqb (dm_told i) (FFin 1))) ;;;
  smoke_100 <- getd "SMQ020" nan_series ;;
  smoke_now <- getd "SMQ040" nan_series ;;
  setc "smoking_status" nan_series ;;;
  s <- getc "smoking_status" ;;
  setc "smoking_status"
    (loc_assign (s_test feqb smoke_100 (FFin 2)) (const_series (FFin 0)) s) ;;;
  s <- getc "smoking_status" ;;
  setc "smoking_status"
    (loc_assign (fun i => feqb (smoke_100 i) (FFin 1) && isin12 (smoke_now i))
                (const_series (FFin 2)) s) ;;;
  s <- getc "smoking_status" ;;
  setc "smoking_status"
    (loc_assign (fun i => feqb (smoke_100 i) (FFin 1) && feqb (smoke_now i) (FFin 3))
                (const_series (FFin 1)) s) ;;;
  s <- getc "smoking_status" ;;
  setc "current_smoker" (fun i => of_bool (feqb (s i) (FFin 2))) ;;;
  scr <- getd "LBXSCR" nan_series ;;
  age <- getc "age" ;; sex <- getc "sex" ;;
  setc "egfr" (calculate_egfr_ckdepi2021 O scr age sex) ;;;
  egfr <- getc "egfr" ;;
  setc "ckd" (fun i => of_bool (flt (egfr i) (FFin 60))) ;;;
  chd <- getd "MCQ160C" (const_series (FFin 2)) ;;
  mi <- getd "MCQ160E" (const_series (FFin 2)) ;;
  stroke <- getd "MCQ160F" (const_series (FFin 2)) ;;
  angina <- getd "MCQ160D" (const_series (FFin 2)) ;;
  chf <- getd "MCQ160B" (const_series (FFin 2)) ;;
  setc "cvd_history"
    (fun i => of_bool (feqb (chd i) (FFin 1) || feqb (mi i) (FFin 1)
                       || feqb (stroke i) (FFin 1) || feqb (angina i) (FFin 1)
                       || feqb (chf i) (FFin 1))) ;;;
  cancer <- getd "MCQ220" (const_series (FFin 2)) ;;
  setc "cancer_history" (fun i => of_bool (feqb (cancer i) (FFin 1))) ;;;
  (* Eligibility *)
  age <- getc "age" ;;
  setc "age_eligible" (fun i => of_bool (fge (age i) (FFin 20))) ;;;
  iri <- getc "iri" ;;
  setc "iri_available" (fun i => of_bool (notna (iri i))) ;;;
  hscrp <- getc "hscrp" ;;
  setc "crp_valid" (fun i => of_bool (fle (hscrp i) (FFin 10))) ;;;
  age_eligible <- getc "age_eligible" ;; iri_available <- getc "iri_available" ;;
  crp_valid <- getc "crp_valid" ;; mec_weight <- getc "mec_weight" ;;
  setc "eligible"
    (fun i => of_bool (truthy (age_eligible i) && truthy (iri_available i)
                       && truthy (crp_valid i) && notna (mec_weight i))).

(* ------------------------------------------------------------------------- *)
(** ** [scripts/02_harmonize_iri.py] *)

Definition grip_cols : list string :=
  ["MGXH1T1"; "MGXH1T2"; "MGXH1T3"; "MGXH2T1"; "MGXH2T2"; "MGXH2T3"]%string.

(** [compute_max_grip_strength(df)]: zero and negative readings are invalid. *)
Definition compute_max_grip_strength (df : frame) : Series :=
  let available_cols := filter (has_col df) grip_cols in
  match available_cols with
  | [] => nan_series
  | _ =>
      let clean (x : fval) :=
        let y := replace_zero_nan x in
        if flt y (FFin 0) then FNaN else y in
      max_axis1 (map (fun c => s_map clean (get_or df c nan_series)) available_cols)
  end.

(** [compute_egfr_ckdepi_2021(creatinine, age, sex)]: the result starts as
    NaN and is assigned on the rows with sex 2, then on the rows with sex 1. *)
Definition compute_egfr_ckdepi_2021 (O : RealOps) (creatinine age sex : Series) : Series :=
  let egfr := nan_series in
  let female_mask := s_test feqb sex (FFin 2) in
  let kappa_f := FFin (7 # 10) in
  let alpha_f := FFin (- (241 # 1000)) in
  let egfr_f : Series := fun i =>
    let scr_kappa_f := fdiv (creatinine i) kappa_f in
    let min_term_f := fpow O (fminimum scr_kappa_f (FFin 1)) alpha_f in
    let max_term_f := fpow O (fmaximum scr_kappa_f (FFin 1)) (FFin (- (12 # 10))) in
    let age_term_f := fpow O (FFin (9938 # 10000)) (age i) in
    fmul (fmul (fmul (fmul (FFin 142) min_term_f) max_term_f) age_term_f)
         (FFin (1012 # 1000)) in
  let egfr := loc_assign female_mask egfr_f egfr in
  let male_mask := s_test feqb sex (FFin 1) in
  let kappa_m := FFin (9 # 10) in
  let alpha_m := FFin (- (302 # 1000)) in
  let egfr_m : Series := fun i =>
    let scr_kappa_m := fdiv (creatinine i) kappa_m in
    let min_term_m := fpow O (fminimum scr_kappa_m (FFin 1)) alpha_m in
    let max_term_m := fpow O (fmaximum scr_kappa_m (FFin 1)) (FFin (- (12 # 10))) in
    let age_term_m := fpow O (FFin (9938 # 10000)) (age i) in
    fmul (fmul (fmul (FFin 142) min_term_m) max_term_m) age_term_m in
  loc_assign male_mask egfr_m egfr.

(** [define_hypertension(df)]: a 0 is turned into NaN on the rows where the
    three inputs are all NaN. *)
Definition define_hypertension (df : frame) : Series :=
  let sbp := get_or df "mean_sbp" nan_series in
  let dbp := get_or df "mean_dbp" nan_series in
  let bp_med := get_or df "BPQ040A" nan_series in
  fun i =>
    let htn := of_bool (fge (sbp i) (FFin 130) || fge (dbp i) (FFin 80)
                        || feqb (bp_med i) (FFin 1)) in
    if feqb htn (FFin 0)
    then (if isna (sbp i) && isna (dbp i) && isna (bp_med i) then FNaN else FFin 0)
    else htn.

(** [define_diabetes(df)] *)
Definition define_diabetes (df : frame) : Series :=
  let hba1c := get_or df "LBXGH" nan_series in
  let glucose := get_or df "LBXGLU" nan_series in
  let told := get_or df "DIQ010" nan_series in
  let insulin := get_or df "DIQ050" nan_series in
  let oral_med := get_or df "DIQ070" nan_series in
  fun i =>
    of_bool (fge (hba1c i) (FFin (65 # 10)) || fge (glucose i) (FFin 126)
             || feqb (told i) (FFin 1) || feqb (insulin i) (FFin 1)
             || feqb (oral_med i) (FFin 1)).

(** [define_cvd_history(df)] *)
Definition define_cvd_history (df : frame) : Series :=
  let chf := get_or df "MCQ160B" (const_series (FFin 2)) in
  let chd := get_or df "MCQ160C" (const_series (FFin 2)) in
  let angina := get_or df "MCQ160D" (const_series (FFin 2)) in
  let mi := get_or df "MCQ160E" (const_series (FFin 2)) in
  let stroke := get_or df "MCQ160F" (const_series (FFin 2)) in
  fun i =>
    of_bool (feqb (chf i) (FFin 1) || feqb (chd i) (FFin 1)
             || feqb (angina i) (FFin 1) || feqb (mi i) (FFin 1)
             || feqb (stroke i) (FFin 1)).

(** The divisor of the sex-specific standardization of grip strength, when
    the script divides: [if mask.sum() > 0]. *)
Definition grip_divisor (O : RealOps) (n : nat) (sex grip_max : Series) (sex_val : fval)
  : option fval :=
  let mask := s_test feqb sex sex_val in
  if Nat.ltb 0 (mask_sum n mask)
  then Some (std O (loc_cells n mask grip_max))
  else None.

(** One turn of [for sex in [1, 2]]. *)
Definition z_grip_step (O : RealOps) (sex_val : fval) : M unit :=
  n <- len ;;
  sex <- getc "RIAGENDR" ;;
  let mask := s_test feqb sex sex_val in
  grip_max <- getc "grip_max" ;;
  z <- getc "z_grip" ;;
  match grip_divisor O n sex grip_max sex_val with
  | Some grip_std =>
      let grip_mean := mean (loc_cells n mask grip_max) in
      setc "z_grip" (loc_assign mask (zscore grip_max grip_mean grip_std) z)
  | None => ret tt
  end.

Definition quartile_labels_harmonize : list string :=
  ["Q1 (lowest)"; "Q2"; "Q3"; "Q4 (highest)"]%string.

(** [construct_iri(df)], statement by statement. *)
Definition construct_iri (O : RealOps) : M unit :=
  n <- len ;;
  x <- getd "LBXHSCRP" nan_series ;; setc "hscrp" x ;;;
  x <- getd "LBXSAL" nan_series ;; setc "albumin" x ;;;
  df <- this ;; setc "grip_max" (compute_max_grip_strength df) ;;;
  hscrp <- getc "hscrp" ;;
  setc "log_hscrp" (fun i => flog O (replace_zero_nan (hscrp i))) ;;;
  log_hscrp <- getc "log_hscrp" ;;
  setc "z_log_hscrp"
    (zscore log_hscrp (mean (cells n log_hscrp)) (std O (cells n log_hscrp))) ;;;
  albumin <- getc "albumin" ;;
  setc "z_albumin" (zscore albumin (mean (cells n albumin)) (std O (cells n albumin))) ;;;
  setc "z_grip" nan_series ;;;
  for_each [FFin 1; FFin 2] (z_grip_step O) ;;;
  z_log_hscrp <- getc "z_log_hscrp" ;; z_albumin <- getc "z_albumin" ;;
  z_grip <- getc "z_grip" ;;
  setc "iri" (s_add (s_add (s_map fneg z_log_hscrp) z_albumin) z_grip) ;;;
  iri <- getc "iri" ;;
  q <- raise_if_none (qcut n iri quartile_labels_harmonize) ;;
  setcat "iri_quartile" q ;;;
  hscrp <- getc "hscrp" ;; albumin <- getc "albumin" ;; grip_max <- getc "grip_max" ;;
  setc "flag_crp_high" (fun i => of_bool (fgt (hscrp i) (FFin 10))) ;;;
  setc "flag_crp_very_high" (fun i => of_bool (fgt (hscrp i) (FFin 20))) ;;;
  setc "flag_albumin_low" (fun i => of_bool (flt (albumin i) (FFin (35 # 10)))) ;;;
  let p10 := fquantile (filter notna (cells n grip_max)) (1 # 10) in
  setc "flag_grip_low_p10" (fun i => of_bool (flt (grip_max i) p10)).

(** [apply_eligibility_criteria(df)]: the flag starts at 1 and is cleared by
    each exclusion in turn. *)
Definition apply_eligibility_criteria : M unit :=
  setc "eligible" (const_series (FFin 1)) ;;;
  age <- getc "age" ;; e <- getc "eligible" ;;
  setc "eligible" (loc_assign (s_test flt age (FFin 18)) (const_series (FFin 0)) e) ;;;
  pregnant <- getc "pregnant" ;; e <- getc "eligible" ;;
  setc "eligible" (loc_assign (s_test feqb pregnant (FFin 1)) (const_series (FFin 0)) e) ;;;
  hscrp <- getc "hscrp" ;; albumin <- getc "albumin" ;; grip_max <- getc "grip_max" ;;
  setc "has_iri_components"
    (fun i => of_bool (notna (hscrp i) && notna (albumin i) && notna (grip_max i))) ;;;
  h <- getc "has_iri_components" ;; e <- getc "eligible" ;;
  setc "eligible" (loc_assign (s_test feqb h (FFin 0)) (const_series (FFin 0)) e) ;;;
  setc "has_mortality_eligible" (const_series (FFin 1)) ;;;
  e <- getc "eligible" ;; hscrp <- getc "hscrp" ;;
  setc "primary_analysis"
    (fun i => of_bool (feqb (e i) (FFin 1) && fle (hscrp i) (FFin 10))).

(* ------------------------------------------------------------------------- *)
(** ** [scripts/03_link_mortality.py]

    The linkage works on rows: the cohort rows carry the identifier and the
    cycle tag (the other cohort columns pass through untouched), a mortality
    record is one decoded line of a linked mortality file. *)

Record MortRecord : Type := {
  m_SEQN : fval;
  eligstat : fval;
  mortstat : fval;
  ucod_leading : fval;
  permth_int : fval;
  permth_exm : fval
}.

Record CohortRow : Type := {
  SEQN : fval;
  cycle : string
}.

(** A mortality record after [define_cause_specific_mortality]. *)
Record MortOutcome : Type := {
  o_rec : MortRecord;
  o_mort_cv : fval;
  o_mort_heart : fval;
  o_mort_all : fval;
  o_mort_cancer : fval
}.

Record LinkedRow : Type := {
  l_SEQN : fval;
  l_cycle : string;
  l_mortstat : fval;
  l_permth_exm : fval;
  l_mort_all : fval;
  l_mort_cv : fval;
  l_mort_heart : fval;
  l_mort_cancer : fval;
  followup_years : fval
}.

(** Keys are compared as pandas compares them when it drops duplicates and
    merges: equal values, or both NaN. *)
Definition key_eqb (x y : fval) : bool := (isna x && isna y) || feqb x y.

(** [drop_duplicates(subset=['SEQN'])]: the first record of each key stays. *)
Fixpoint drop_duplicates_from (seen : list fval) (l : list MortRecord) : list MortRecord :=
  match l with
  | [] => []
  | r :: t =>
      if existsb (key_eqb (m_SEQN r)) seen
      then drop_duplicates_from seen t
      else r :: drop_duplicates_from (m_SEQN r :: seen) t
  end.

Definition drop_duplicates (l : list MortRecord) : list MortRecord :=
  drop_duplicates_from [] l.

(** [define_cause_specific_mortality(df)] on one record. *)
Definition define_cause_specific_mortality (r : MortRecord) : MortOutcome :=
  let dead := feqb (mortstat r) (FFin 1) in
  {| o_rec := r;
     o_mort_cv := of_bool (dead && (feqb (ucod_leading r) (FFin 1)
                                    || feqb (ucod_leading r) (FFin 5)));
     o_mort_heart := of_bool (dead && feqb (ucod_leading r) (FFin 1));
     o_mort_all := of_bool dead;
     o_mort_cancer := of_bool (dead && feqb (ucod_leading r) (FFin 2)) |}.

(** [fillna(0)] on one cell. *)
Definition fillna0 (x : fval) : fval := if isna x then FFin 0 else x.

(** The records of the mortality table that carry a cohort row's key. *)
Definition matches (c : CohortRow) (mort : list MortOutcome) : list MortOutcome :=
  filter (fun o => key_eqb (SEQN c) (m_SEQN (o_rec o))) mort.

(** The statements after the merge, on one merged row: the status columns are
    filled with 0, the follow-up is [permth_exm / 12], and a follow-up that is
    NaN is replaced by 3.5 or 2.0 according to the cycle. *)
Definition finish_row (c : CohortRow) (mortstat' permth mort_all mort_cv mort_heart mort_cancer : fval)
  : LinkedRow :=
  let f0 := fdiv permth (FFin 12) in
  let f1 := if isna f0 && String.eqb (cycle c) "2015-2016" then FFin (35 # 10) else f0 in
  let f2 := if isna f1 && String.eqb (cycle c) "2017-2020" then FFin 2 else f1 in
  {| l_SEQN := SEQN c; l_cycle := cycle c;
     l_mortstat := fillna0 mortstat';
     l_permth_exm := permth;
     l_mort_all := fillna0 mort_all;
     l_mort_cv := fillna0 mort_cv;
     l_mort_heart := fillna0 mort_heart;
     l_mort_cancer := fillna0 mort_cancer;
     followup_years := f2 |}.

(** [df.merge(combined_mort[mort_vars], on='SEQN', how='left')] followed by
    the fills, for one cohort row: a row without a match gets NaN in the
    mortality columns, a row with matches is repeated once per match. *)
Definition link_row (mort : list MortOutcome) (c : CohortRow) : list LinkedRow :=
  match matches c mort with
  | [] => [finish_row c FNaN FNaN FNaN FNaN FNaN FNaN]
  | ms =>
      map (fun o => finish_row c (mortstat (o_rec o)) (permth_exm (o_rec o))
                      (o_mort_all o) (o_mort_cv o) (o_mort_heart o) (o_mort_cancer o))
          ms
  end.

(** The [else] branch of [main]: mortality data was loaded. *)
Definition link_mortality (df : list CohortRow) (all_mort : list (list MortRecord))
  : list LinkedRow :=
  let combined_mort := concat all_mort in
  let combined_mort := drop_duplicates combined_mort in
  let combined_mort := map define_cause_specific_mortality combined_mort in
  flat_map (link_row combined_mort) df.

(** The placeholder branch: no mortality data; the outcome columns are NaN
    (the columns the script does not create there are NaN here too). *)
Definition placeholder_row (c : CohortRow) : LinkedRow :=
  {| l_SEQN := SEQN c; l_cycle := cycle c;
     l_mortstat := FNaN; l_permth_exm := FNaN; l_mort_all := FNaN;
     l_mort_cv := FNaN; l_mort_heart := FNaN; l_mort_cancer := FNaN;
     followup_years := FNaN |}.

(** [main] of the linkage script, from the loaded cohort and the loaded
    mortality files ([mort_files] holds one table per file, empty when the file
    could not be read). *)
Definition link_main (df : list CohortRow) (mort_files : list (list MortRecord))
  : list LinkedRow :=
  let all_mort := filter (fun t => Nat.ltb 0 (List.length t)) mort_files in
  match all_mort with
  | [] => map placeholder_row df
  | _ => link_mortality df all_mort
  end.

(* ------------------------------------------------------------------------- *)
(** ** A computable instance of [RealOps]

    Rational approximations of the three functions, for running the model on
    concrete frames.  Every theorem below holds for all instances. *)

(** Rounding up to six decimals keeps the numbers of a run small. *)
Definition round6 (q : Q) : Q := Qceiling (q * 1000000) # 1000000.

Definition ln_approx (q : Q) : Q :=
  let y := (q - 1) / (q + 1) in
  round6 (2 * (y + y * y * y / 3 + y * y * y * y * y / 5)).

Definition exp_approx (t : Q) : Q :=
  round6 (1 + t + t * t / 2 + t * t * t / 6 + t * t * t * t / 24).

Definition pow_approx (b e : Q) : Q := exp_approx (e * ln_approx b).

Fixpoint newton (steps : nat) (v x : Q) : Q :=
  match steps with
  | O => x
  | S k => newton k v (round6 ((x + v / x) / 2))
  end.

Definition sqrt_approx (v : Q) : Q :=
  if Qle_bool v 0 then 0 else newton 6 v (round6 ((v + 1) / 2)).

Lemma round6_pos (q : Q) : 0 < q -> 0 < round6 q.
Proof.
  intro H. unfold round6.
  assert (Hc : q * 1000000 <= inject_Z (Qceiling (q * 1000000))) by apply Qle_ceiling.
  assert (Hz : (0 < Qceiling (q * 1000000))%Z).
  { rewrite Zlt_Qlt. change (inject_Z 0) with 0. lra. }
  unfold Qlt. simpl. lia.
Qed.

Lemma newton_pos (steps : nat) (v x : Q) : 0 < v -> 0 < x -> 0 < newton steps v x.
Proof.
  revert x. induction steps as [|k IH]; intros x Hv Hx; cbn [newton]; [exact Hx|].
  apply IH; [exact Hv|].
  assert (Hq : 0 < v / x)
    by (apply Qlt_shift_div_l; [exact Hx | rewrite Qmult_0_l; exact Hv]).
  apply round6_pos, Qlt_shift_div_l; [reflexivity | lra].
Qed.

Lemma sqrt_approx_zero (v : Q) : v == 0 -> sqrt_approx v == 0.
Proof.
  intro H. unfold sqrt_approx.
  destruct (Qle_bool v 0) eqn:E; [reflexivity|].
  assert (Qle_bool v 0 = true) by (apply Qle_bool_iff; lra).
  congruence.
Qed.

Lemma sqrt_approx_pos (v : Q) : 0 < v -> 0 < sqrt_approx v.
Proof.
  intro H. unfold sqrt_approx.
  destruct (Qle_bool v 0) eqn:E.
  - apply Qle_bool_iff in E. lra.
  - apply newton_pos; [exact H|].
    apply round6_pos, Qlt_shift_div_l; [reflexivity | lra].
Qed.

Definition approx_ops : RealOps :=
  {| ln_q := ln_approx; sqrt_q := sqrt_approx; pow_q := pow_approx;
     sqrt_q_zero := sqrt_approx_zero; sqrt_q_pos := sqrt_approx_pos |}.

(** Building concrete frames. *)
Definition series_of (l : list fval) : Series := fun i => nth i l FNaN.

Definition mk_frame (n : nat) (columns : list (string * list fval)) : frame :=
  {| nrows := n;
     cols := map (fun kv => (fst kv, series_of (snd kv))) columns;
     cats := [] |}.

(** Reading a run's result. *)
Definition column_of (r : option (unit * frame)) (k : string) : option (list fval) :=
  match r with
  | Some (_, df) =>
      match assoc k (cols df) with
      | Some s => Some (cells (nrows df) s)
      | None => None
      end
  | None => None
  end.

Definition category_of (r : option (unit * frame)) (k : string)
  : option (list (option string)) :=
  match r with
  | Some (_, df) =>
      match assoc k (cats df) with
      | Some s => Some (map s (seq 0 (nrows df)))
      | None => None
      end
  | None => None
  end.

(* ------------------------------------------------------------------------- *)
(** ** The columns a run of [build_iri_cohort] leaves, as functions of the
    input frame *)

Definition col (df : frame) (k : string) : Series := get_or df k nan_series.

Definition cohort_weight (df : frame) : Series :=
  get_or df "WTMEC2YR" (get_or df "WTMECPRP" nan_series).

Definition cohort_almi (df : frame) : Series :=
  let height_m := s_scalar fdiv (col df "BMXHT") (FFin 100) in
  s_div (calculate_alm df) (s_mul height_m height_m).

Definition log_hscrp_col (O : RealOps) (df : frame) : Series :=
  fun i => flog O (replace_zero_nan (col df "LBXHSCRP" i)).

(** The pooled z-score of a column over the first [n] rows. *)
Definition pooled_z (O : RealOps) (n : nat) (x : Series) : Series :=
  zscore x (mean (cells n x)) (std O (cells n x)).

Definition cohort_z_crp_inv (O : RealOps) (df : frame) : Series :=
  s_scalar fmul (pooled_z O (nrows df) (log_hscrp_col O df)) (FFin (- (1))).

(** The effect of one turn of the sex loop on the [z_almi] column. *)
Definition z_almi_update (O : RealOps) (n : nat) (sex almi : Series) (sex_val : fval)
  (z : Series) : Series :=
  let mask := s_test feqb sex sex_val in
  match almi_divisor O n sex almi sex_val with
  | Some std_almi => loc_assign mask (zscore almi (mean (loc_cells n mask almi)) std_almi) z
  | None => z
  end.

Definition cohort_z_almi (O : RealOps) (df : frame) : Series :=
  let n := nrows df in
  let sex := col df "RIAGENDR" in
  let almi := cohort_almi df in
  z_almi_update O n sex almi (FFin 2) (z_almi_update O n sex almi (FFin 1) nan_series).

Definition cohort_iri (O : RealOps) (df : frame) : Series :=
  s_add (s_add (cohort_z_crp_inv O df) (pooled_z O (nrows df) (col df "LBXSAL")))
        (cohort_z_almi O df).

Definition cohort_mean_bp (p : string -> bool) (df : frame) : Series :=
  match select_cols p df with
  | [] => nan_series
  | _ => mean_axis1 (select_cols p df)
  end.

Definition cohort_hypertension (df : frame) : Series :=
  fun i => of_bool (fge (cohort_mean_bp is_sbp_col df i) (FFin 130)
                    || fge (cohort_mean_bp is_dbp_col df i) (FFin 80)
                    || feqb (col df "BPQ040A" i) (FFin 1)).

Definition cohort_diabetes (df : frame) : Series :=
  fun i => of_bool (fge (col df "LBXGH" i) (FFin (65 # 10))
                    || fge (col df "LBXGLU" i) (FFin 126)
                    || feqb (col df "DIQ010" i) (FFin 1)).

Definition cohort_cvd_history (df : frame) : Series :=
  let two := const_series (FFin 2) in
  fun i => of_bool (feqb (get_or df "MCQ160C" two i) (FFin 1)
                    || feqb (get_or df "MCQ160E" two i) (FFin 1)
                    || feqb (get_or df "MCQ160F" two i) (FFin 1)
                    || feqb (get_or df "MCQ160D" two i) (FFin 1)
                    || feqb (get_or df "MCQ160B" two i) (FFin 1)).

Definition cohort_eligible (O : RealOps) (df : frame) : Series :=
  fun i => of_bool (truthy (of_bool (fge (col df "RIDAGEYR" i) (FFin 20)))
                    && truthy (of_bool (notna (cohort_iri O df i)))
                    && truthy (of_bool (fle (col df "LBXHSCRP" i) (FFin 10)))
                    && notna (cohort_weight df i)).

(** What a successful run of [build_iri_cohort] is. *)
Record cohort_run (O : RealOps) (df out : frame) : Prop := {
  cr_age : has_col df "RIDAGEYR" = true;
  cr_sex : has_col df "RIAGENDR" = true;
  cr_psu : has_col df "SDMVPSU" = true;
  cr_strata : has_col df "SDMVSTRA" = true;
  cr_nrows : nrows out = nrows df;
  cr_out_age : assoc "age" (cols out) = Some (col df "RIDAGEYR");
  cr_out_sex : assoc "sex" (cols out) = Some (col df "RIAGENDR");
  cr_out_weight : assoc "mec_weight" (cols out) = Some (cohort_weight df);
  cr_out_hscrp : assoc "hscrp" (cols out) = Some (col df "LBXHSCRP");
  cr_out_alm : assoc "alm_kg" (cols out) = Some (calculate_alm df);
  cr_out_almi : assoc "almi" (cols out) = Some (cohort_almi df);
  cr_out_z_crp : assoc "z_crp" (cols out)
                 = Some (pooled_z O (nrows df) (log_hscrp_col O df));
  cr_out_z_crp_inv : assoc "z_crp_inv" (cols out) = Some (cohort_z_crp_inv O df);
  cr_out_z_albumin : assoc "z_albumin" (cols out)
                     = Some (pooled_z O (nrows df) (col df "LBXSAL"));
  cr_out_z_almi : assoc "z_almi" (cols out) = Some (cohort_z_almi O df);
  cr_out_iri : assoc "iri" (cols out) = Some (cohort_iri O df);
  cr_out_quartile : exists q,
      qcut (nrows df) (cohort_iri O df) quartile_labels_cohort = Some q
      /\ assoc "iri_quartile" (cats out) = Some q;
  cr_out_mean_sbp : assoc "mean_sbp" (cols out) = Some (cohort_mean_bp is_sbp_col df);
  cr_out_mean_dbp : assoc "mean_dbp" (cols out) = Some (cohort_mean_bp is_dbp_col df);
  cr_out_hypertension : assoc "hypertension" (cols out) = Some (cohort_hypertension df);
  cr_out_diabetes : assoc "diabetes" (cols out) = Some (cohort_diabetes df);
  cr_out_cvd : assoc "cvd_history" (cols out) = Some (cohort_cvd_history df);
  cr_out_eligible : assoc "eligible" (cols out) = Some (cohort_eligible O df)
}.

(** *** Running a script on a frame

    During a run the frame is the input frame with the bindings pushed so far:
    [push l c df]. *)

Definition push (l : list (string * Series)) (c : list (string * (nat -> option string)))
  (df : frame) : frame :=
  {| nrows := nrows df; cols := l ++ cols df; cats := c ++ cats df |}.

Definition fresh_in (l : list (string * Series)) (k : string) : bool :=
  match assoc k l with None => true | Some _ => false end.

Lemma assoc_app {A} k (l1 l2 : list (string * A)) :
  assoc k (l1 ++ l2) = match assoc k l1 with Some v => Some v | None => assoc k l2 end.
Proof.
  induction l1 as [|[k' v] t IH]; cbn [assoc app]; [reflexivity|].
  destruct (String.eqb k k'); [reflexivity | exact IH].
Qed.

Lemma bind_setc_p {B} k s (f : unit -> M B) l c df :
  bind (setc k s) f (push l c df) = f tt (push ((k, s) :: l) c df).
Proof. reflexivity. Qed.

Lemma bind_setcat_p {B} k s (f : unit -> M B) l c df :
  bind (setcat k s) f (push l c df) = f tt (push l ((k, s) :: c) df).
Proof. reflexivity. Qed.

Lemma bind_len_p {B} (f : nat -> M B) l c df :
  bind len f (push l c df) = f (nrows df) (push l c df).
Proof. reflexivity. Qed.

Lemma bind_this_p {B} (f : frame -> M B) l c df :
  bind this f (push l c df) = f (push l c df) (push l c df).
Proof. reflexivity. Qed.

Lemma bind_ret_p {A B} (a : A) (f : A -> M B) df : bind (ret a) f df = f a df.
Proof. reflexivity. Qed.

Lemma bind_assoc {A B C} (m : M A) (f : A -> M B) (g : B -> M C) df :
  bind (bind m f) g df = bind m (fun a => bind (f a) g) df.
Proof. unfold bind. destruct (m df) as [[a df']|]; reflexivity. Qed.

Lemma bind_raise {A B} (o : option A) (f : A -> M B) df :
  bind (raise_if_none o) f df = match o with Some a => f a df | None => None end.
Proof. unfold bind, raise_if_none. destruct o; reflexivity. Qed.

Lemma get_or_push_raw k d l c df :
  fresh_in l k = true -> get_or (push l c df) k d = get_or df k d.
Proof.
  unfold fresh_in, get_or, push. cbn [cols]. rewrite assoc_app.
  destruct (assoc k l); [discriminate | reflexivity].
Qed.

Lemma bind_getd_raw {B} k d (f : Series -> M B) l c df :
  fresh_in l k = true ->
  bind (getd k d) f (push l c df) = f (get_or df k d) (push l c df).
Proof.
  intro E. unfold bind, getd. now rewrite (get_or_push_raw k d l c df E).
Qed.

Lemma bind_getc_found {B} k (f : Series -> M B) l c df s :
  assoc k l = Some s ->
  bind (getc k) f (push l c df) = f s (push l c df).
Proof.
  intro E. unfold bind, getc, push. cbn [cols]. rewrite assoc_app, E. reflexivity.
Qed.

Lemma bind_getc_raw {B} k (f : Series -> M B) l c df :
  fresh_in l k = true ->
  bind (getc k) f (push l c df)
  = match assoc k (cols df) with Some s => f s (push l c df) | None => None end.
Proof.
  unfold fresh_in, bind, getc, push. cbn [cols]. rewrite assoc_app.
  destruct (assoc k l); [discriminate|].
  destruct (assoc k (cols df)); reflexivity.
Qed.

Lemma has_col_push_raw k l c df :
  fresh_in l k = true -> has_col (push l c df) k = has_col df k.
Proof.
  unfold fresh_in, has_col, push. cbn [cols]. rewrite assoc_app.
  destruct (assoc k l); [discriminate | reflexivity].
Qed.

Lemma calculate_alm_push l c df :
  forallb (fresh_in l) alm_cols = true ->
  calculate_alm (push l c df) = calculate_alm df.
Proof.
  intro E. rewrite forallb_forall in E. unfold calculate_alm.
  assert (Hf : filter (has_col (push l c df)) alm_cols = filter (has_col df) alm_cols)
    by (apply filter_ext_in; intros k Hk; apply has_col_push_raw, E, Hk).
  rewrite Hf.
  destruct (Nat.eqb _ 4); [|reflexivity].
  f_equal. f_equal. apply map_ext_in. intros k Hk.
  apply get_or_push_raw, E. apply filter_In in Hk. apply Hk.
Qed.

Lemma compute_max_grip_strength_push l c df :
  forallb (fresh_in l) grip_cols = true ->
  compute_max_grip_strength (push l c df) = compute_max_grip_strength df.
Proof.
  intro E. rewrite forallb_forall in E. unfold compute_max_grip_strength.
  assert (Hf : filter (has_col (push l c df)) grip_cols = filter (has_col df) grip_cols)
    by (apply filter_ext_in; intros k Hk; apply has_col_push_raw, E, Hk).
  rewrite Hf.
  destruct (filter (has_col df) grip_cols) eqn:Ef; [reflexivity|].
  rewrite <- Ef. f_equal. apply map_ext_in. intros k Hk.
  f_equal. apply get_or_push_raw, E. apply filter_In in Hk. apply Hk.
Qed.

Lemma select_from_app_skip p seen l t :
  existsb (fun kv => p (fst kv)) l = false ->
  select_from p seen (l ++ t) = select_from p seen t.
Proof.
  induction l as [|[k v] l IH]; cbn [existsb app select_from fst]; [reflexivity|].
  intro E. apply orb_false_iff in E. destruct E as [E1 E2].
  rewrite E1. cbn [andb]. apply IH, E2.
Qed.

Lemma select_cols_push p l c df :
  existsb (fun kv => p (fst kv)) l = false ->
  select_cols p (push l c df) = select_cols p df.
Proof. intro E. unfold select_cols, push. cbn [cols]. apply select_from_app_skip, E. Qed.

Lemma get_or_some df k d s : assoc k (cols df) = Some s -> get_or df k d = s.
Proof. unfold get_or. now intros ->. Qed.

Lemma has_col_some df k s : assoc k (cols df) = Some s -> has_col df k = true.
Proof. unfold has_col. now intros ->. Qed.

(** One statement of a run. *)
Ltac mstep1 H :=
  lazymatch type of H with
  | bind (bind _ _) _ _ = _ => rewrite bind_assoc in H
  | bind (setc _ _) _ (push _ _ _) = _ => rewrite bind_setc_p in H; cbv beta in H
  | bind (setcat _ _) _ (push _ _ _) = _ => rewrite bind_setcat_p in H; cbv beta in H
  | bind (getd ?k ?d) ?f (push ?l ?c ?df) = _ =>
      rewrite (bind_getd_raw k d f l c df eq_refl) in H; cbv beta in H
  | bind this _ (push _ _ _) = _ =>
      rewrite bind_this_p in H; cbv beta in H;
      repeat match type of H with
        | context [calculate_alm (push ?l ?c ?df)] =>
            rewrite (calculate_alm_push l c df eq_refl) in H
        | context [select_cols ?p (push ?l ?c ?df)] =>
            rewrite (select_cols_push p l c df eq_refl) in H
        | context [compute_max_grip_strength (push ?l ?c ?df)] =>
            rewrite (compute_max_grip_strength_push l c df eq_refl) in H
        end
  | bind len _ (push _ _ _) = _ => rewrite bind_len_p in H; cbv beta in H
  | bind (ret _) _ _ = _ => rewrite bind_ret_p in H; cbv beta in H
  | bind (getc ?k) ?f (push ?l ?c ?df) = _ =>
      first
        [ rewrite (bind_getc_found k f l c df _ eq_refl) in H; cbv beta in H
        | rewrite (bind_getc_raw k f l c df eq_refl) in H;
          lazymatch goal with
          | E : assoc k (cols df) = Some _ |- _ => rewrite E in H
          | _ =>
              let s := fresh "s" in let E := fresh "E" in
              destruct (assoc k (cols df)) as [s|] eqn:E; [|discriminate H]
          end;
          cbv beta in H ]
  | bind (raise_if_none ?o) _ _ = _ =>
      rewrite bind_raise in H;
      let E := fresh "Eq" in destruct o eqn:E; [|discriminate H]
  | bind (for_each _ _) _ _ = _ => cbn [for_each] in H
  | bind (z_almi_step _ _) _ _ = _ => unfold z_almi_step at 1 in H
  | bind (z_grip_step _ _) _ _ = _ => unfold z_grip_step at 1 in H
  | bind (match ?o with Some _ => _ | None => _ end) _ _ = _ =>
      let E := fresh "Ediv" in destruct o eqn:E
  end.

Lemma build_iri_cohort_run O df out :
  build_iri_cohort O df = Some (tt, out) -> cohort_run O df out.
Proof.
  intros H. destruct df as [n cs ca].
  change {| nrows := n; cols := cs; cats := ca |}
    with (push [] [] {| nrows := n; cols := cs; cats := ca |}) in H at 1.
  set (df := {| nrows := n; cols := cs; cats := ca |}) in *.
  unfold build_iri_cohort in H.
  repeat mstep1 H.
  all: unfold setc in H; injection H as <-.
  all: constructor;
    try (eapply has_col_some; eassumption);
    cbn [assoc cols cats nrows set_col push app String.eqb Ascii.eqb Bool.eqb].
  all: unfold cohort_eligible, cohort_iri, cohort_z_almi, z_almi_update,
    cohort_z_crp_inv, cohort_hypertension, cohort_mean_bp, cohort_diabetes,
    cohort_cvd_history, cohort_weight, cohort_almi, log_hscrp_col, pooled_z, col;
    rewrite ?(get_or_some _ _ _ _ E), ?(get_or_some _ _ _ _ E0).
  all: try rewrite Ediv; try rewrite Ediv0.
  all: try reflexivity.
  all: eexists; split; [eassumption | reflexivity].
Qed.

(* ------------------------------------------------------------------------- *)
(** ** The columns a run of [construct_iri] and of
    [apply_eligibility_criteria] leaves *)

(** The effect of one turn of the sex loop on the [z_grip] column. *)
Definition z_grip_update (O : RealOps) (n : nat) (sex grip_max : Series) (sex_val : fval)
  (z : Series) : Series :=
  let mask := s_test feqb sex sex_val in
  match grip_divisor O n sex grip_max sex_val with
  | Some grip_std =>
      loc_assign mask (zscore grip_max (mean (loc_cells n mask grip_max)) grip_std) z
  | None => z
  end.

Definition harm_z_grip (O : RealOps) (df : frame) : Series :=
  let n := nrows df in
  let sex := col df "RIAGENDR" in
  let grip := compute_max_grip_strength df in
  z_grip_update O n sex grip (FFin 2) (z_grip_update O n sex grip (FFin 1) nan_series).

Definition harm_z_log_hscrp (O : RealOps) (df : frame) : Series :=
  pooled_z O (nrows df) (log_hscrp_col O df).

Definition harm_iri (O : RealOps) (df : frame) : Series :=
  s_add (s_add (s_map fneg (harm_z_log_hscrp O df))
               (pooled_z O (nrows df) (col df "LBXSAL")))
        (harm_z_grip O df).

(** What a successful run of [construct_iri] is. *)
Record harm_run (O : RealOps) (df out : frame) : Prop := {
  hr_sex : has_col df "RIAGENDR" = true;
  hr_nrows : nrows out = nrows df;
  hr_out_hscrp : assoc "hscrp" (cols out) = Some (col df "LBXHSCRP");
  hr_out_albumin : assoc "albumin" (cols out) = Some (col df "LBXSAL");
  hr_out_grip : assoc "grip_max" (cols out) = Some (compute_max_grip_strength df);
  hr_out_z_log_hscrp : assoc "z_log_hscrp" (cols out) = Some (harm_z_log_hscrp O df);
  hr_out_z_albumin : assoc "z_albumin" (cols out)
                     = Some (pooled_z O (nrows df) (col df "LBXSAL"));
  hr_out_z_grip : assoc "z_grip" (cols out) = Some (harm_z_grip O df);
  hr_out_iri : assoc "iri" (cols out) = Some (harm_iri O df);
  hr_out_quartile : exists q,
      qcut (nrows df) (harm_iri O df) quartile_labels_harmonize = Some q
      /\ assoc "iri_quartile" (cats out) = Some q;
  hr_out_flag_crp_high : assoc "flag_crp_high" (cols out)
      = Some (fun i => of_bool (fgt (col df "LBXHSCRP" i) (FFin 10)));
  hr_raw : forall k, fresh_in
      [("flag_grip_low_p10", nan_series); ("flag_albumin_low", nan_series);
       ("flag_crp_very_high", nan_series); ("flag_crp_high", nan_series);
       ("iri", nan_series); ("z_grip", nan_series); ("z_albumin", nan_series);
       ("z_log_hscrp", nan_series); ("log_hscrp", nan_series);
       ("grip_max", nan_series); ("albumin", nan_series); ("hscrp", nan_series)]%string k
      = true -> assoc k (cols out) = assoc k (cols df)
}.

Lemma construct_iri_run O df out :
  construct_iri O df = Some (tt, out) -> harm_run O df out.
Proof.
  intros H. destruct df as [n cs ca].
  change {| nrows := n; cols := cs; cats := ca |}
    with (push [] [] {| nrows := n; cols := cs; cats := ca |}) in H at 1.
  set (df := {| nrows := n; cols := cs; cats := ca |}) in *.
  unfold construct_iri in H.
  repeat mstep1 H.
  all: unfold setc in H; injection H as <-.
  all: constructor;
    try (eapply has_col_some; eassumption);
    cbn [assoc cols cats nrows set_col push app String.eqb Ascii.eqb Bool.eqb].
  all: unfold harm_iri, harm_z_grip, z_grip_update, harm_z_log_hscrp,
    log_hscrp_col, pooled_z, col;
    rewrite ?(get_or_some _ _ _ _ E).
  all: try rewrite Ediv; try rewrite Ediv0.
  all: try reflexivity.
  all: try (eexists; split; [eassumption | reflexivity]).
  all: intros k Hk; unfold fresh_in in Hk; cbn [assoc] in Hk;
    repeat (destruct (String.eqb k _); [discriminate Hk|]); reflexivity.
Qed.

Definition harm_eligible (df : frame) : Series :=
  fun i =>
    if feqb (of_bool (notna (col df "hscrp" i) && notna (col df "albumin" i)
                      && notna (col df "grip_max" i))) (FFin 0)
    then FFin 0
    else if feqb (col df "pregnant" i) (FFin 1) then FFin 0
    else if flt (col df "age" i) (FFin 18) then FFin 0
    else FFin 1.

Definition harm_primary (df : frame) : Series :=
  fun i => of_bool (feqb (harm_eligible df i) (FFin 1) && fle (col df "hscrp" i) (FFin 10)).

(** What a successful run of [apply_eligibility_criteria] is. *)
Record eligibility_run (df out : frame) : Prop := {
  er_age : has_col df "age" = true;
  er_pregnant : has_col df "pregnant" = true;
  er_hscrp : has_col df "hscrp" = true;
  er_albumin : has_col df "albumin" = true;
  er_grip : has_col df "grip_max" = true;
  er_out_eligible : assoc "eligible" (cols out) = Some (harm_eligible df);
  er_out_primary : assoc "primary_analysis" (cols out) = Some (harm_primary df)
}.

Lemma apply_eligibility_criteria_run df out :
  apply_eligibility_criteria df = Some (tt, out) -> eligibility_run df out.
Proof.
  intros H. destruct df as [n cs ca].
  change {| nrows := n; cols := cs; cats := ca |}
    with (push [] [] {| nrows := n; cols := cs; cats := ca |}) in H at 1.
  set (df := {| nrows := n; cols := cs; cats := ca |}) in *.
  unfold apply_eligibility_criteria in H.
  repeat mstep1 H.
  unfold setc in H; injection H as <-.
  constructor;
    try (eapply has_col_some; eassumption);
    cbn [assoc cols cats nrows set_col push app String.eqb Ascii.eqb Bool.eqb].
  all: unfold harm_primary, harm_eligible, col;
    rewrite ?(get_or_some _ _ _ _ E), ?(get_or_some _ _ _ _ E0),
      ?(get_or_some _ _ _ _ E1), ?(get_or_some _ _ _ _ E2), ?(get_or_some _ _ _ _ E3).
  all: reflexivity.
Qed.

(** [apply_eligibility_criteria] returns as soon as the five columns it
    reads exist. *)
Lemma apply_eligibility_criteria_total df :
  has_col df "age" = true -> has_col df "pregnant" = true ->
  has_col df "hscrp" = true -> has_col df "albumin" = true ->
  has_col df "grip_max" = true ->
  exists out, apply_eligibility_criteria df = Some (tt, out).
Proof.
  unfold has_col. intros H1 H2 H3 H4 H5.
  destruct (assoc "age" (cols df)) as [a|] eqn:Ea; [|discriminate].
  destruct (assoc "pregnant" (cols df)) as [p|] eqn:Ep; [|discriminate].
  destruct (assoc "hscrp" (cols df)) as [h|] eqn:Eh; [|discriminate].
  destruct (assoc "albumin" (cols df)) as [al|] eqn:Eal; [|discriminate].
  destruct (assoc "grip_max" (cols df)) as [g|] eqn:Eg; [|discriminate].
  destruct (apply_eligibility_criteria df) as [[[] out]|] eqn:H;
    [eexists; reflexivity | exfalso].
  destruct df as [n cs ca]. cbn [cols] in *.
  change {| nrows := n; cols := cs; cats := ca |}
    with (push [] [] {| nrows := n; cols := cs; cats := ca |}) in H at 1.
  set (df := {| nrows := n; cols := cs; cats := ca |}) in *.
  change cs with (cols df) in Ea, Ep, Eh, Eal, Eg.
  unfold apply_eligibility_criteria in H.
  repeat mstep1 H.
  discriminate H.
Qed.

(* ------------------------------------------------------------------------- *)
(** ** Example frames *)

Definition FZ (l : list Z) : list fval := map fZ l.

(** Six participants of one cycle; the fifth has an hs-CRP above 10 mg/L, the
    last one is a child. *)
Definition cohort_example : frame := mk_frame 6
  [ ("RIDAGEYR", FZ [30; 40; 50; 60; 25; 10]%Z);
    ("RIAGENDR", FZ [1; 1; 1; 2; 2; 2]%Z);
    ("WTMEC2YR", FZ [1; 1; 1; 1; 1; 1]%Z);
    ("SDMVPSU", FZ [1; 1; 2; 2; 1; 2]%Z);
    ("SDMVSTRA", FZ [1; 1; 1; 1; 1; 1]%Z);
    ("LBXHSCRP", FZ [1; 2; 3; 1; 12; 4]%Z);
    ("LBXSAL", FZ [4; 5; 4; 3; 4; 5]%Z);
    ("DXDLALE", FZ [3000; 3500; 4000; 2000; 2500; 1500]%Z);
    ("DXDRALE", FZ [3000; 3500; 4000; 2000; 2500; 1500]%Z);
    ("DXDLLLE", FZ [8000; 9000; 10000; 6000; 7000; 5000]%Z);
    ("DXDRLLE", FZ [8000; 9000; 10000; 6000; 7000; 5000]%Z);
    ("BMXHT", FZ [180; 175; 170; 160; 165; 140]%Z) ]%string.

(** The frame a successful run leaves (the input frame on an exception). *)
Definition frame_of (df : frame) (r : option (unit * frame)) : frame :=
  match r with Some (_, out) => out | None => df end.

Definition succeeds (r : option (unit * frame)) : bool :=
  match r with Some _ => true | None => false end.

Lemma succeeds_frame_of df r : succeeds r = true -> r = Some (tt, frame_of df r).
Proof. destruct r as [[[] out]|]; [reflexivity | discriminate]. Qed.

Definition cohort_example_out : frame :=
  frame_of cohort_example (build_iri_cohort approx_ops cohort_example).

Lemma cohort_example_runs :
  build_iri_cohort approx_ops cohort_example = Some (tt, cohort_example_out).
Proof. apply succeeds_frame_of. vm_compute. reflexivity. Qed.

(* ------------------------------------------------------------------------- *)
(** ** Flags of the covariates *)

Definition is_flag (x : fval) : Prop := x = FFin 0 \/ x = FFin 1.

(** A field is missing for a row when the frame has no such column or the
    cell is NaN. *)
Definition missing_at (df : frame) (i : nat) (k : string) : bool :=
  negb (has_col df k) || isna (col df k i).

Lemma of_bool_is_flag (b : bool) : is_flag (of_bool b).
Proof. destruct b; [right | left]; reflexivity. Qed.

Lemma missing_get_or df i k d :
  missing_at df i k = true -> get_or df k d i = FNaN \/ get_or df k d i = d i.
Proof.
  unfold missing_at, has_col, col, get_or.
  destruct (assoc k (cols df)) as [s|]; cbn [negb orb].
  - intro H. left. destruct (s i); [reflexivity | discriminate | discriminate].
  - intros _. right. reflexivity.
Qed.

Lemma missing_nan df i k : missing_at df i k = true -> col df k i = FNaN.
Proof. intro H. destruct (missing_get_or df i k nan_series H) as [E|E]; exact E. Qed.

Lemma missing_not_one df i k :
  missing_at df i k = true -> feqb (get_or df k (const_series (FFin 2)) i) (FFin 1) = false.
Proof.
  intro H. destruct (missing_get_or df i k (const_series (FFin 2)) H) as [E|E];
    rewrite E; reflexivity.
Qed.

Definition diabetes_inputs_cohort : list string := ["LBXGH"; "LBXGLU"; "DIQ010"]%string.
Definition diabetes_inputs_harmonize : list string :=
  ["LBXGH"; "LBXGLU"; "DIQ010"; "DIQ050"; "DIQ070"]%string.
Definition cvd_inputs : list string :=
  ["MCQ160B"; "MCQ160C"; "MCQ160D"; "MCQ160E"; "MCQ160F"]%string.

Ltac split_forallb H :=
  unfold diabetes_inputs_cohort, diabetes_inputs_harmonize, cvd_inputs in H;
  cbn [forallb] in H;
  repeat match type of H with
    | (_ && _)%bool = true =>
        let H1 := fresh "Hm" in
        apply andb_prop in H; destruct H as [H1 H]
    end.

(** C10.  The diabetes flag and the cardiovascular-history flag are 0 or 1
    for every row, in the cohort script and in the harmonization script, and
    they are 0 for a row whose contributing fields are all missing. *)
Theorem diabetes_cvd_flags_total (O : RealOps) (df out hdf : frame) (i : nat) :
  build_iri_cohort O df = Some (tt, out) ->
  (is_flag (col out "diabetes" i) /\ is_flag (col out "cvd_history" i)
   /\ (forallb (missing_at df i) diabetes_inputs_cohort = true ->
       col out "diabetes" i = FFin 0)
   /\ (forallb (missing_at df i) cvd_inputs = true ->
       col out "cvd_history" i = FFin 0))
  /\ (is_flag (define_diabetes hdf i) /\ is_flag (define_cvd_history hdf i)
      /\ (forallb (missing_at hdf i) diabetes_inputs_harmonize = true ->
          define_diabetes hdf i = FFin 0)
      /\ (forallb (missing_at hdf i) cvd_inputs = true ->
          define_cvd_history hdf i = FFin 0)).
Proof.
  intro Hrun. apply build_iri_cohort_run in Hrun.
  unfold col at 1 2 3 4.
  rewrite (get_or_some _ _ _ _ (cr_out_diabetes _ _ _ Hrun)).
  rewrite (get_or_some _ _ _ _ (cr_out_cvd _ _ _ Hrun)).
  repeat split; try apply of_bool_is_flag.
  - intro H. split_forallb H. unfold cohort_diabetes.
    rewrite (missing_nan _ _ _ Hm), (missing_nan _ _ _ Hm0), (missing_nan _ _ _ Hm1).
    reflexivity.
  - intro H. split_forallb H. unfold cohort_cvd_history.
    rewrite (missing_not_one _ _ _ Hm), (missing_not_one _ _ _ Hm0),
      (missing_not_one _ _ _ Hm1), (missing_not_one _ _ _ Hm2),
      (missing_not_one _ _ _ Hm3). reflexivity.
  - intro H. split_forallb H.
    unfold define_diabetes. fold (col hdf "LBXGH") (col hdf "LBXGLU")
      (col hdf "DIQ010") (col hdf "DIQ050") (col hdf "DIQ070").
    rewrite (missing_nan _ _ _ Hm), (missing_nan _ _ _ Hm0),
      (missing_nan _ _ _ Hm1), (missing_nan _ _ _ Hm2), (missing_nan _ _ _ Hm3).
    reflexivity.
  - intro H. split_forallb H. unfold define_cvd_history.
    rewrite (missing_not_one _ _ _ Hm), (missing_not_one _ _ _ Hm0),
      (missing_not_one _ _ _ Hm1), (missing_not_one _ _ _ Hm2),
      (missing_not_one _ _ _ Hm3). reflexivity.
Qed.

Lemma diabetes_cvd_flags_total_witness :
  (is_flag (col cohort_example_out "diabetes" 0%nat)
   /\ is_flag (col cohort_example_out "cvd_history" 0%nat)
   /\ (forallb (missing_at cohort_example 0%nat) diabetes_inputs_cohort = true ->
       col cohort_example_out "diabetes" 0%nat = FFin 0)
   /\ (forallb (missing_at cohort_example 0%nat) cvd_inputs = true ->
       col cohort_example_out "cvd_history" 0%nat = FFin 0))
  /\ (is_flag (define_diabetes cohort_example 0%nat)
      /\ is_flag (define_cvd_history cohort_example 0%nat)
      /\ (forallb (missing_at cohort_example 0%nat) diabetes_inputs_harmonize = true ->
          define_diabetes cohort_example 0%nat = FFin 0)
      /\ (forallb (missing_at cohort_example 0%nat) cvd_inputs = true ->
          define_cvd_history cohort_example 0%nat = FFin 0)).
Proof.
  exact (diabetes_cvd_flags_total approx_ops cohort_example cohort_example_out
           cohort_example 0%nat cohort_example_runs).
Defined.

(* ------------------------------------------------------------------------- *)
(** ** Kidney function estimate *)



Lemma feq_trans (x y z : fval) : feq x y -> feq y z -> feq x z.
Proof.
  destruct x, y, z; cbn; try tauto; intros H1 H2;
    [congruence | now rewrite H1].
Qed.



Lemma feqb_1_not_2 (x : fval) : feqb x (FFin 1) = true -> feqb x (FFin 2) = false.
Proof.
  destruct x as [| |q]; cbn; try discriminate.
  intro H. apply Qeq_bool_iff in H.
  destruct (Qeq_bool q 2) eqn:E; [|reflexivity].
  apply Qeq_bool_iff in E. rewrite H in E. discriminate E.
Qed.





(** The CKD-EPI 2021 equation over the rationals, with the minimum and the
    maximum of the rational numbers and the power function applied directly:
    [142 * min(Scr/k, 1)^a * max(Scr/k, 1)^(-1.200) * 0.9938^age * (1.012 if
    female else 1.0)], [k = 0.7], [a = -0.241] for female and [k = 0.9],
    [a = -0.302] for male. *)
Definition egfr_reference (O : RealOps) (s a : Q) (female : bool) : Q :=
  let kappa := if female then 7 # 10 else 9 # 10 in
  let alpha := if female then - (241 # 1000) else - (302 # 1000) in
  142 * pow_q O (Qmin (s / kappa) 1) alpha
      * pow_q O (Qmax (s / kappa) 1) (- (12 # 10))
      * pow_q O (9938 # 10000) a
      * (if female then 1012 # 1000 else 1).

(** Two laws of the power function that C's [pow] implements as special
    cases: [1 ** e = 1] and [b ** 0 = 1]. *)
Definition power_laws (O : RealOps) : Prop :=
  (forall b e, b == 1 -> pow_q O b e == 1)
  /\ (forall b e, 0 < b -> e == 0 -> pow_q O b e == 1).

(** [pow_q O b e] is within the relative error [eps] of the real power
    [b ^ e].  For [e = n / d] the real power is the positive [x] with
    [x ^ d = b ^ n], so [y / (1 + eps) <= x <= y / (1 - eps)] is a comparison
    of rationals. *)
Definition pow_rel_error_le (O : RealOps) (eps b e : Q) : Prop :=
  let y := pow_q O b e in
  0 < y
  /\ (y / (1 + eps)) ^ Z.pos (Qden e) <= b ^ Qnum e
  /\ b ^ Qnum e <= (y / (1 - eps)) ^ Z.pos (Qden e).

(** A power function for rational exponents [n / d]: the [d]-th root of
    [b ^ n], found by bisection. *)
Fixpoint bisect (d : positive) (c lo hi : Q) (fuel : nat) : Q :=
  match fuel with
  | O => lo
  | S f =>
      let mid := Qred ((lo + hi) / 2) in
      if Qle_bool (mid ^ Z.pos d) c
      then bisect d c mid hi f
      else bisect d c lo mid f
  end.

Definition pow_root (b e : Q) : Q :=
  if Qeq_bool b 1 then 1
  else if Qeq_bool e 0 then 1
  else let c := b ^ Qnum e in bisect (Qden e) c 0 (Qmax 1 c) 48.

Definition root_ops : RealOps :=
  {| ln_q := ln_approx; sqrt_q := sqrt_approx; pow_q := pow_root;
     sqrt_q_zero := sqrt_approx_zero; sqrt_q_pos := sqrt_approx_pos |}.

Lemma root_ops_power_laws : power_laws root_ops.
Proof.
  split; intros b e H; cbn [pow_q root_ops]; unfold pow_root.
  - apply Qeq_bool_iff in H. now rewrite H.
  - intro He. apply Qeq_bool_iff in He. rewrite He.
    now destruct (Qeq_bool b 1).
Qed.

Lemma fminimum_Qmin (x : Q) : fminimum (FFin x) (FFin 1) = FFin (Qmin x 1).
Proof.
  unfold fminimum, fle, Qmin, GenericMinMax.gmin, Qle_bool, Qcompare, Z.leb.
  now destruct (Qnum x * QDen 1 ?= Qnum 1 * QDen x)%Z.
Qed.

Lemma fmaximum_Qmax (x : Q) : feq (fmaximum (FFin x) (FFin 1)) (FFin (Qmax x 1)).
Proof.
  unfold fmaximum, fle.
  destruct (Qle_bool x 1) eqn:E; cbn.
  - apply Qle_bool_iff in E. symmetry. now apply Q.max_r.
  - symmetry. apply Q.max_l. apply Qlt_le_weak, Qnot_le_lt. intro H.
    apply Qle_bool_iff in H. congruence.
Qed.

(** On a positive base numpy's [**] is the power function, the two special
    cases included. *)
Lemma fpow_positive (O : RealOps) (b e : Q) :
  power_laws O -> 0 < b ->
  exists v, fpow O (FFin b) (FFin e) = FFin v /\ v == pow_q O b e.
Proof.
  intros [L1 L0] Hb. unfold fpow.
  destruct (Qeq_bool e 0) eqn:E0.
  - exists 1. split; [reflexivity|]. symmetry. apply L0; [exact Hb|].
    now apply Qeq_bool_iff.
  - destruct (Qeq_bool b 1) eqn:E1.
    + exists 1. split; [reflexivity|]. symmetry. apply L1. now apply Qeq_bool_iff.
    + assert (Hlt : Qlt_bool 0 b = true).
      { unfold Qlt_bool. destruct (Qle_bool b 0) eqn:E; [|reflexivity].
        apply Qle_bool_iff in E. lra. }
      rewrite Hlt. exists (pow_q O b e). split; reflexivity.
Qed.

Lemma fpow_max_term (O : RealOps) (x e : Q) :
  power_laws O -> 0 < x ->
  exists v, fpow O (fmaximum (FFin x) (FFin 1)) (FFin e) = FFin v
            /\ v == pow_q O (Qmax x 1) e.
Proof.
  intros HL Hx. unfold fmaximum, fle.
  destruct (Qle_bool x 1) eqn:E.
  - destruct (fpow_positive O 1 e HL eq_refl) as [v [Hv Hv']].
    exists v. split; [exact Hv|]. rewrite Hv'.
    destruct HL as [L1 _]. rewrite (L1 1 e), (L1 (Qmax x 1) e); try reflexivity.
    apply Q.max_r. now apply Qle_bool_iff.
  - destruct (fpow_positive O x e HL Hx) as [v [Hv Hv']].
    exists v. split; [exact Hv|]. rewrite Hv'.
    replace (Qmax x 1) with x; [reflexivity|].
    unfold Qmax, GenericMinMax.gmax. unfold Qle_bool, Z.leb in E.
    unfold Qcompare. now destruct (Qnum x * QDen 1 ?= Qnum 1 * QDen x)%Z.
Qed.

Lemma fpow_min_term (O : RealOps) (x e : Q) :
  power_laws O -> 0 < x ->
  exists v, fpow O (fminimum (FFin x) (FFin 1)) (FFin e) = FFin v
            /\ v == pow_q O (Qmin x 1) e.
Proof.
  intros HL Hx. rewrite fminimum_Qmin.
  apply fpow_positive; [exact HL|]. apply Q.min_glb_lt; [exact Hx | reflexivity].
Qed.

(** On a row with present, positive creatinine and present age each script
    computes the equation. *)
Lemma calculate_egfr_reference (O : RealOps) (scr age sex : Series) (i : nat) (s a : Q) :
  power_laws O -> scr i = FFin s -> age i = FFin a -> 0 < s ->
  feq (calculate_egfr_ckdepi2021 O scr age sex i)
      (FFin (egfr_reference O s a (feqb (sex i) (FFin 2)))).
Proof.
  intros HL Hs Ha Hpos. unfold calculate_egfr_ckdepi2021, egfr_reference.
  rewrite Hs, Ha.
  destruct (fpow_positive O (9938 # 10000) a HL eq_refl) as [v3 [E3 Q3]].
  rewrite E3.
  destruct (feqb (sex i) (FFin 2)).
  - assert (Hk : 0 < s / (7 # 10)) by (apply Qlt_shift_div_l; [reflexivity | lra]).
    change (fdiv (FFin s) (FFin (7 # 10))) with (FFin (s / (7 # 10))).
    destruct (fpow_min_term O _ (- (241 # 1000)) HL Hk) as [v1 [E1 Q1]].
    destruct (fpow_max_term O _ (- (12 # 10)) HL Hk) as [v2 [E2 Q2]].
    rewrite E1, E2. cbn [fmul feq]. now rewrite Q1, Q2, Q3.
  - assert (Hk : 0 < s / (9 # 10)) by (apply Qlt_shift_div_l; [reflexivity | lra]).
    change (fdiv (FFin s) (FFin (9 # 10))) with (FFin (s / (9 # 10))).
    destruct (fpow_min_term O _ (- (302 # 1000)) HL Hk) as [v1 [E1 Q1]].
    destruct (fpow_max_term O _ (- (12 # 10)) HL Hk) as [v2 [E2 Q2]].
    rewrite E1, E2. cbn [fmul feq]. now rewrite Q1, Q2, Q3.
Qed.

Lemma compute_egfr_reference (O : RealOps) (scr age sex : Series) (i : nat) (s a : Q) :
  power_laws O -> scr i = FFin s -> age i = FFin a -> 0 < s ->
  feqb (sex i) (FFin 1) = true \/ feqb (sex i) (FFin 2) = true ->
  feq (compute_egfr_ckdepi_2021 O scr age sex i)
      (FFin (egfr_reference O s a (feqb (sex i) (FFin 2)))).
Proof.
  intros HL Hs Ha Hpos Hsex.
  destruct (fpow_positive O (9938 # 10000) a HL eq_refl) as [v3 [E3 Q3]].
  unfold compute_egfr_ckdepi_2021, loc_assign, s_test, egfr_reference.
  rewrite Hs, Ha, E3.
  destruct Hsex as [H1|H2].
  - rewrite H1, (feqb_1_not_2 _ H1).
    assert (Hk : 0 < s / (9 # 10)) by (apply Qlt_shift_div_l; [reflexivity | lra]).
    change (fdiv (FFin s) (FFin (9 # 10))) with (FFin (s / (9 # 10))).
    destruct (fpow_min_term O _ (- (302 # 1000)) HL Hk) as [v1 [E1 Q1]].
    destruct (fpow_max_term O _ (- (12 # 10)) HL Hk) as [v2 [E2 Q2]].
    rewrite E1, E2. cbn [fmul feq]. rewrite Q1, Q2, Q3. ring.
  - rewrite H2.
    destruct (feqb (sex i) (FFin 1)) eqn:E; [apply feqb_1_not_2 in E; congruence|].
    assert (Hk : 0 < s / (7 # 10)) by (apply Qlt_shift_div_l; [reflexivity | lra]).
    change (fdiv (FFin s) (FFin (7 # 10))) with (FFin (s / (7 # 10))).
    destruct (fpow_min_term O _ (- (241 # 1000)) HL Hk) as [v1 [E1 Q1]].
    destruct (fpow_max_term O _ (- (12 # 10)) HL Hk) as [v2 [E2 Q2]].
    rewrite E1, E2. cbn [fmul feq]. now rewrite Q1, Q2, Q3.
Qed.

(** Powers with a positive integer exponent grow with a non-negative base. *)
Lemma Qpower_pos_lt_mono (n : positive) (a b : Q) :
  0 <= a -> a < b -> a ^ Z.pos n < b ^ Z.pos n.
Proof.
  intros Ha Hab. cbn [Qpower].
  induction n as [|n IH] using Pos.peano_ind.
  - exact Hab.
  - rewrite <- Pos.add_1_r, !Qpower_plus_positive.
    change (Qpower_positive a 1) with a. change (Qpower_positive b 1) with b.
    assert (H0 : 0 <= Qpower_positive a n).
    { change (0 <= a ^ Z.pos n). now apply Qpower_0_le. }
    apply Qle_lt_trans with (Qpower_positive b n * a).
    + apply Qmult_le_compat_r; [apply Qlt_le_weak, IH | exact Ha].
    + apply Qmult_lt_l; [lra | exact Hab].
Qed.

Lemma Qpower_pos_le_inv (n : positive) (a b : Q) :
  0 <= b -> a ^ Z.pos n <= b ^ Z.pos n -> a <= b.
Proof.
  intros Hb H. apply Qnot_lt_le. intro Hlt.
  apply (Qpower_pos_lt_mono n) in Hlt; [lra | exact Hb].
Qed.

(** A rational bracket [lo <= b ^ e <= hi] of the real power carries over to
    a power function of relative error [eps]. *)
Lemma pow_rel_error_bounds (O : RealOps) (eps b e lo hi : Q) :
  pow_rel_error_le O eps b e -> 0 <= eps -> eps < 1 ->
  0 <= hi ->
  lo ^ Z.pos (Qden e) <= b ^ Qnum e -> b ^ Qnum e <= hi ^ Z.pos (Qden e) ->
  lo * (1 - eps) <= pow_q O b e /\ pow_q O b e <= hi * (1 + eps).
Proof.
  intros [Hy [Hl Hu]] He0 He1 Hhi Blo Bhi. cbv zeta in *.
  set (y := pow_q O b e) in *. split.
  - assert (H : lo <= y / (1 - eps)).
    { apply (Qpower_pos_le_inv (Qden e)); [|lra].
      apply Qle_shift_div_l; lra. }
    apply (Qmult_le_compat_r _ _ (1 - eps)) in H; [|lra].
    assert (E : y / (1 - eps) * (1 - eps) == y) by (field; lra).
    lra.
  - assert (H : y / (1 + eps) <= hi).
    { apply (Qpower_pos_le_inv (Qden e)); [exact Hhi | lra]. }
    apply (Qmult_le_compat_r _ _ (1 + eps)) in H; [|lra].
    assert (E : y / (1 + eps) * (1 + eps) == y) by (field; lra).
    lra.
Qed.

(** The value of the equation at creatinine 1.0, age 50, female, for a power
    function of relative error at most [10^-7] at the two powers that occur,
    [(1/0.7)^(-1.2)] and [0.9938^50]: it is 68.6335 to four decimal
    places.  The brackets [0.6518049405 <= 0.7^1.2 <= 0.6518049406] and
    [0.7327395281 <= 0.9938^50 <= 0.7327395282] are checked in rational
    arithmetic. *)
Lemma egfr_reference_value (O : RealOps) (eps : Q) :
  power_laws O -> 0 <= eps -> eps <= 1 # 10000000 ->
  pow_rel_error_le O eps (1 / (7 # 10)) (- (12 # 10)) ->
  pow_rel_error_le O eps (9938 # 10000) 50 ->
  Qabs (egfr_reference O 1 50 true - (686335 # 10000)) < 5 # 100000.
Proof.
  intros [L1 _] He0 He1 H1 H2.
  apply (pow_rel_error_bounds O eps _ _
           (6518049405 # 10000000000) (6518049406 # 10000000000)) in H1;
    [ | exact He0 | lra | discriminate
      | vm_compute; discriminate | vm_compute; discriminate ].
  apply (pow_rel_error_bounds O eps _ _
           (7327395281 # 10000000000) (7327395282 # 10000000000)) in H2;
    [ | exact He0 | lra | discriminate
      | vm_compute; discriminate | vm_compute; discriminate ].
  unfold egfr_reference.
  change (Qmin (1 / (7 # 10)) 1) with 1.
  change (Qmax (1 / (7 # 10)) 1) with (1 / (7 # 10)).
  rewrite (L1 1 (- (241 # 1000)) (Qeq_refl 1)).
  set (y1 := pow_q O (1 / (7 # 10)) (- (12 # 10))) in *.
  set (y2 := pow_q O (9938 # 10000) 50) in *.
  destruct H1 as [A1 B1], H2 as [A2 B2].
  assert (A1' : (6518049405 # 10000000000) * (1 - (1 # 10000000)) <= y1) by lra.
  assert (B1' : y1 <= (6518049406 # 10000000000) * (1 + (1 # 10000000))) by lra.
  assert (A2' : (7327395281 # 10000000000) * (1 - (1 # 10000000)) <= y2) by lra.
  assert (B2' : y2 <= (7327395282 # 10000000000) * (1 + (1 # 10000000))) by lra.
  clear A1 B1 A2 B2.
  assert (Lo : (6518049405 # 10000000000) * (1 - (1 # 10000000))
               * ((7327395281 # 10000000000) * (1 - (1 # 10000000))) <= y1 * y2).
  { apply Qmult_le_compat_nonneg; split; try assumption; discriminate. }
  assert (Hi : y1 * y2 <= (6518049406 # 10000000000) * (1 + (1 # 10000000))
               * ((7327395282 # 10000000000) * (1 + (1 # 10000000)))).
  { apply Qmult_le_compat_nonneg; split; try assumption.
    - eapply Qle_trans; [|exact A1']. discriminate.
    - eapply Qle_trans; [|exact A2']. discriminate. }
  assert (E : 142 * 1 * y1 * y2 * (1012 # 1000) == (142 * (1012 # 1000)) * (y1 * y2))
    by ring.
  rewrite E. apply Qabs_Qlt_condition. split.
  - eapply Qlt_le_trans; [|apply Qplus_le_l, Qmult_le_l; [reflexivity | exact Lo]].
    reflexivity.
  - eapply Qle_lt_trans; [apply Qplus_le_l, Qmult_le_l; [reflexivity | exact Hi]|].
    reflexivity.
Qed.

Lemma root_ops_max_term_accurate :
  pow_rel_error_le root_ops (1 # 1000000000) (1 / (7 # 10)) (- (12 # 10)).
Proof.
  unfold pow_rel_error_le. cbv zeta.
  split; [|split]; vm_compute; [reflexivity | discriminate | discriminate].
Qed.

Lemma root_ops_age_term_accurate :
  pow_rel_error_le root_ops (1 # 1000000000) (9938 # 10000) 50.
Proof.
  unfold pow_rel_error_le. cbv zeta.
  split; [|split]; vm_compute; [reflexivity | discriminate | discriminate].
Qed.

(** C5.  On every row with present, positive creatinine, present age and sex
    code 1 or 2 both scripts return the value of the CKD-EPI 2021 equation
    [142 * min(Scr/k,1)^a * max(Scr/k,1)^(-1.200) * 0.9938^age * (1.012 if
    female else 1.0)] with [k = 0.7], [a = -0.241] for female and [k = 0.9],
    [a = -0.302] for male, written with the minimum, maximum and power of the
    rationals, for every power function with [1^e = 1] and [b^0 = 1].  For
    creatinine 1.0, age 50, female, and a power function of relative error at
    most [10^-7] at the two powers involved, both scripts return 68.6335 to
    four decimal places.  For a creatinine that is not positive the equation
    has no real value. *)
Theorem egfr_matches_formula (O : RealOps) (scr age sex : Series) (i : nat)
  (s a eps : Q) :
  power_laws O ->
  (scr i = FFin s -> age i = FFin a -> 0 < s ->
   feqb (sex i) (FFin 1) = true \/ feqb (sex i) (FFin 2) = true ->
   feq (calculate_egfr_ckdepi2021 O scr age sex i)
       (FFin (egfr_reference O s a (feqb (sex i) (FFin 2))))
   /\ feq (compute_egfr_ckdepi_2021 O scr age sex i)
          (FFin (egfr_reference O s a (feqb (sex i) (FFin 2)))))
  /\ (0 <= eps -> eps <= 1 # 10000000 ->
      pow_rel_error_le O eps (1 / (7 # 10)) (- (12 # 10)) ->
      pow_rel_error_le O eps (9938 # 10000) 50 ->
      scr i = FFin 1 -> age i = FFin 50 -> sex i = FFin 2 ->
      exists v,
        feq (calculate_egfr_ckdepi2021 O scr age sex i) (FFin v)
        /\ feq (compute_egfr_ckdepi_2021 O scr age sex i) (FFin v)
        /\ Qabs (v - (686335 # 10000)) < 5 # 100000).
Proof.
  intro HL. split.
  - intros Hs Ha Hpos Hsex. split.
    + now apply calculate_egfr_reference.
    + now apply compute_egfr_reference.
  - intros He0 He1 H1 H2 Hs Ha Hsex.
    exists (egfr_reference O 1 50 true).
    assert (Hf : feqb (sex i) (FFin 2) = true) by now rewrite Hsex.
    split; [|split].
    + pose proof (calculate_egfr_reference O scr age sex i 1 50 HL Hs Ha eq_refl) as H.
      now rewrite Hf in H.
    + pose proof (compute_egfr_reference O scr age sex i 1 50 HL Hs Ha eq_refl
                    (or_intror Hf)) as H.
      now rewrite Hf in H.
    + now apply (egfr_reference_value O eps).
Qed.

Lemma egfr_matches_formula_witness :
  (feq (calculate_egfr_ckdepi2021 root_ops (const_series (FFin 1))
          (const_series (FFin 50)) (const_series (FFin 2)) 0%nat)
       (FFin (egfr_reference root_ops 1 50 (feqb (FFin 2) (FFin 2))))
   /\ feq (compute_egfr_ckdepi_2021 root_ops (const_series (FFin 1))
             (const_series (FFin 50)) (const_series (FFin 2)) 0%nat)
          (FFin (egfr_reference root_ops 1 50 (feqb (FFin 2) (FFin 2)))))
  /\ exists v,
       feq (calculate_egfr_ckdepi2021 root_ops (const_series (FFin 1))
              (const_series (FFin 50)) (const_series (FFin 2)) 0%nat) (FFin v)
       /\ feq (compute_egfr_ckdepi_2021 root_ops (const_series (FFin 1))
                 (const_series (FFin 50)) (const_series (FFin 2)) 0%nat) (FFin v)
       /\ Qabs (v - (686335 # 10000)) < 5 # 100000.
Proof.
  pose proof (egfr_matches_formula root_ops (const_series (FFin 1))
                (const_series (FFin 50)) (const_series (FFin 2)) 0%nat
                1 50 (1 # 1000000000) root_ops_power_laws) as [A B].
  split.
  - apply A; [reflexivity | reflexivity | reflexivity | right; reflexivity].
  - apply B; [discriminate | discriminate | exact root_ops_max_term_accurate
             | exact root_ops_age_term_accurate | reflexivity | reflexivity
             | reflexivity].
Defined.





(* ------------------------------------------------------------------------- *)
(** ** Appendicular lean mass *)

Lemma calculate_alm_cells (df : frame) (i : nat) :
  forallb (has_col df) alm_cols = true ->
  calculate_alm df i
  = fdiv (nansum [col df "DXDLALE" i; col df "DXDRALE" i;
                  col df "DXDLLLE" i; col df "DXDRLLE" i]) (FFin 1000).
Proof.
  intro H. unfold calculate_alm.
  assert (Hf : filter (has_col df) alm_cols = alm_cols).
  { unfold alm_cols in *. cbn [forallb filter] in *.
    repeat (apply andb_prop in H; destruct H as [-> H]). reflexivity. }
  rewrite Hf. reflexivity.
Qed.

(** The frame lacks one of the four columns: every row is NaN. *)
Lemma calculate_alm_column_missing (df : frame) (i : nat) :
  forallb (has_col df) alm_cols = false -> calculate_alm df i = FNaN.
Proof.
  intro H. unfold calculate_alm.
  assert (Hl : Nat.eqb (List.length (filter (has_col df) alm_cols)) 4 = false).
  { unfold alm_cols in *. cbn [forallb filter] in *.
    destruct (has_col df "DXDLALE"), (has_col df "DXDRALE"),
      (has_col df "DXDLLLE"), (has_col df "DXDRLLE");
      try discriminate H; reflexivity. }
  now rewrite Hl.
Qed.

Lemma calculate_alm_all_present (df : frame) (i : nat) (a b c d : Q) :
  forallb (has_col df) alm_cols = true ->
  col df "DXDLALE" i = FFin a -> col df "DXDRALE" i = FFin b ->
  col df "DXDLLLE" i = FFin c -> col df "DXDRLLE" i = FFin d ->
  calculate_alm df i = FFin ((0 + a + b + c + d) / 1000).
Proof.
  intros H Ha Hb Hc Hd. rewrite (calculate_alm_cells df i H), Ha, Hb, Hc, Hd.
  reflexivity.
Qed.

(** C3 at the defect.  With the four limb columns in the frame, a row whose
    left-arm cell is NaN and whose three other cells are present gets the sum
    of the three present cells divided by 1000, not NaN; a row with no cell
    at all gets 0. *)
Theorem calculate_alm_partial_sum (df : frame) (i : nat) (b c d : Q) :
  forallb (has_col df) alm_cols = true ->
  col df "DXDLALE" i = FNaN ->
  (col df "DXDRALE" i = FFin b -> col df "DXDLLLE" i = FFin c ->
   col df "DXDRLLE" i = FFin d ->
   calculate_alm df i = FFin ((0 + b + c + d) / 1000))
  /\ (col df "DXDRALE" i = FNaN -> col df "DXDLLLE" i = FNaN ->
      col df "DXDRLLE" i = FNaN ->
      calculate_alm df i = FFin (0 / 1000)).
Proof.
  intros H Ha. rewrite (calculate_alm_cells df i H), Ha.
  split; intros Hb Hc Hd; rewrite Hb, Hc, Hd; reflexivity.
Qed.

(** Two DEXA rows: the first lacks the left-arm reading, the second has no
    reading at all. *)
Definition alm_example : frame := mk_frame 2
  [ ("DXDLALE", [FNaN; FNaN]);
    ("DXDRALE", [fZ 3000; FNaN]);
    ("DXDLLLE", [fZ 8000; FNaN]);
    ("DXDRLLE", [fZ 9000; FNaN]) ]%string.

Lemma calculate_alm_partial_sum_witness :
  calculate_alm alm_example 0%nat
  = FFin ((0 + inject_Z 3000 + inject_Z 8000 + inject_Z 9000) / 1000)
  /\ calculate_alm alm_example 1%nat = FFin (0 / 1000).
Proof.
  split.
  - exact (proj1 (calculate_alm_partial_sum alm_example 0%nat _ _ _ eq_refl eq_refl)
             eq_refl eq_refl eq_refl).
  - exact (proj2 (calculate_alm_partial_sum alm_example 1%nat 0 0 0 eq_refl eq_refl)
             eq_refl eq_refl eq_refl).
Defined.

(* ------------------------------------------------------------------------- *)
(** ** Hypertension *)

(** [define_hypertension] of the harmonization script: 1 as soon as one of
    the three criteria holds, NaN exactly when the three inputs are NaN. *)
Lemma define_hypertension_spec (df : frame) (i : nat) :
  let sbp := col df "mean_sbp" i in
  let dbp := col df "mean_dbp" i in
  let med := col df "BPQ040A" i in
  (fge sbp (FFin 130) || fge dbp (FFin 80) || feqb med (FFin 1) = true ->
   define_hypertension df i = FFin 1)
  /\ (define_hypertension df i = FNaN <->
      isna sbp && isna dbp && isna med = true)
  /\ (define_hypertension df i = FNaN \/ is_flag (define_hypertension df i)).
Proof.
  unfold define_hypertension, col. cbv zeta.
  destruct (fge (get_or df "mean_sbp" nan_series i) (FFin 130)
            || fge (get_or df "mean_dbp" nan_series i) (FFin 80)
            || feqb (get_or df "BPQ040A" nan_series i) (FFin 1)) eqn:E.
  - cbn. repeat split; try discriminate; try (right; right; reflexivity).
    intro H. exfalso.
    destruct (get_or df "mean_sbp" nan_series i); try discriminate H.
    destruct (get_or df "mean_dbp" nan_series i); try discriminate H.
    destruct (get_or df "BPQ040A" nan_series i); discriminate.
  - cbn.
    destruct (isna (get_or df "mean_sbp" nan_series i)
              && isna (get_or df "mean_dbp" nan_series i)
              && isna (get_or df "BPQ040A" nan_series i)).
    + repeat split; try discriminate; auto.
    + repeat split; try discriminate; right; left; reflexivity.
Qed.

(** C6 at the defect.  In the cohort script the hypertension flag is 0 or 1
    on every row; on a row whose mean systolic, mean diastolic and medication
    cells are all NaN it is 0, not NaN. *)
Theorem cohort_hypertension_never_missing (O : RealOps) (df out : frame) (i : nat) :
  build_iri_cohort O df = Some (tt, out) ->
  is_flag (col out "hypertension" i)
  /\ (isna (col out "mean_sbp" i) && isna (col out "mean_dbp" i)
      && isna (col df "BPQ040A" i) = true ->
      col out "hypertension" i = FFin 0).
Proof.
  intro Hrun. apply build_iri_cohort_run in Hrun. unfold col at 1 2 3 5.
  rewrite (get_or_some _ _ _ _ (cr_out_hypertension _ _ _ Hrun)).
  rewrite (get_or_some _ _ _ _ (cr_out_mean_sbp _ _ _ Hrun)).
  rewrite (get_or_some _ _ _ _ (cr_out_mean_dbp _ _ _ Hrun)).
  split; [apply of_bool_is_flag|].
  unfold cohort_hypertension. intro H.
  apply andb_prop in H. destruct H as [H H3].
  apply andb_prop in H. destruct H as [H1 H2].
  destruct (cohort_mean_bp is_sbp_col df i); try discriminate H1.
  destruct (cohort_mean_bp is_dbp_col df i); try discriminate H2.
  destruct (col df "BPQ040A" i); try discriminate H3.
  reflexivity.
Qed.

Lemma cohort_hypertension_never_missing_witness :
  is_flag (col cohort_example_out "hypertension" 0%nat)
  /\ col cohort_example_out "hypertension" 0%nat = FFin 0.
Proof.
  pose proof (cohort_hypertension_never_missing approx_ops cohort_example
                cohort_example_out 0%nat cohort_example_runs) as [H1 H2].
  split; [exact H1|].
  apply H2. vm_compute. reflexivity.
Defined.

(* ------------------------------------------------------------------------- *)
(** ** Mortality linkage *)

Lemma in_link_mortality (df : list CohortRow) (all_mort : list (list MortRecord))
  (r : LinkedRow) :
  In r (link_mortality df all_mort) <->
  exists c, In c df
    /\ In r (link_row (map define_cause_specific_mortality
                           (drop_duplicates (concat all_mort))) c).
Proof. unfold link_mortality. rewrite in_flat_map. reflexivity. Qed.

(** A cohort row without a mortality record: status 0, and the follow-up
    of its cycle. *)
Lemma link_row_unmatched (mort : list MortOutcome) (c : CohortRow) (r : LinkedRow) :
  matches c mort = [] -> In r (link_row mort c) ->
  l_mortstat r = FFin 0 /\ l_mort_all r = FFin 0
  /\ (cycle c = "2015-2016"%string -> followup_years r = FFin (35 # 10))
  /\ (cycle c = "2017-2020"%string -> followup_years r = FFin 2).
Proof.
  intros Hm Hr. unfold link_row in Hr. rewrite Hm in Hr.
  destruct Hr as [<-|[]]. cbn.
  repeat split; intros ->; reflexivity.
Qed.

Lemma in_link_row_matched (mort : list MortOutcome) (c : CohortRow) (r : LinkedRow) :
  matches c mort <> [] -> In r (link_row mort c) ->
  exists o, In o (matches c mort)
    /\ r = finish_row c (mortstat (o_rec o)) (permth_exm (o_rec o))
             (o_mort_all o) (o_mort_cv o) (o_mort_heart o) (o_mort_cancer o).
Proof.
  intros Hm Hr. unfold link_row in Hr.
  destruct (matches c mort) as [|o t] eqn:E; [contradiction|].
  apply in_map_iff in Hr. destruct Hr as [o' [<- Ho']].
  exists o'. split; [exact Ho' | reflexivity].
Qed.

(** A matched row whose follow-up months are present keeps months / 12. *)
Lemma link_row_matched_present (mort : list MortOutcome) (c : CohortRow) (r : LinkedRow)
  (m : Q) :
  matches c mort <> [] -> In r (link_row mort c) ->
  l_permth_exm r = FFin m -> followup_years r = FFin (m / 12).
Proof.
  intros Hm Hr Hp. destruct (in_link_row_matched mort c r Hm Hr) as [o [_ ->]].
  cbn in *. rewrite Hp. reflexivity.
Qed.

(** C8 at the defect.  A cohort row that does have a mortality record, but
    one whose follow-up months are missing, is given the constant of its
    cycle like an unlinked row. *)
Theorem link_row_matched_missing_months (mort : list MortOutcome) (c : CohortRow)
  (r : LinkedRow) :
  matches c mort <> [] -> In r (link_row mort c) -> l_permth_exm r = FNaN ->
  (cycle c = "2015-2016"%string -> followup_years r = FFin (35 # 10))
  /\ (cycle c = "2017-2020"%string -> followup_years r = FFin 2).
Proof.
  intros Hm Hr Hp. destruct (in_link_row_matched mort c r Hm Hr) as [o [_ ->]].
  cbn in *. rewrite Hp. split; intros ->; reflexivity.
Qed.

(** Three cohort rows and a mortality file of two records: participant 1 is
    linked with 38 months of follow-up, participant 2 is in the file but not
    eligible for linkage (status and months blank), participant 3 is not in
    the file. *)
Definition mortality_cohort_example : list CohortRow :=
  [ {| SEQN := FFin 1; cycle := "2015-2016" |};
    {| SEQN := FFin 2; cycle := "2015-2016" |};
    {| SEQN := FFin 3; cycle := "2017-2020" |} ].

Definition mortality_file_example : list MortRecord :=
  [ {| m_SEQN := FFin 1; eligstat := FFin 1; mortstat := FFin 0;
       ucod_leading := FNaN; permth_int := FFin 40; permth_exm := FFin 38 |};
    {| m_SEQN := FFin 2; eligstat := FFin 2; mortstat := FNaN;
       ucod_leading := FNaN; permth_int := FNaN; permth_exm := FNaN |} ].

Definition mortality_example_prepared : list MortOutcome :=
  map define_cause_specific_mortality
      (drop_duplicates (concat [mortality_file_example])).

Lemma mortality_example_followup :
  map followup_years (link_main mortality_cohort_example [mortality_file_example])
  = [FFin (38 / 12); FFin (35 # 10); FFin 2].
Proof. reflexivity. Qed.

Definition mortality_example_row (k : nat) : LinkedRow :=
  nth k (link_main mortality_cohort_example [mortality_file_example])
      (placeholder_row (Build_CohortRow FNaN EmptyString)).

Lemma link_row_matched_missing_months_witness :
  followup_years (mortality_example_row 1) = FFin (35 # 10).
Proof.
  refine (proj1 (link_row_matched_missing_months mortality_example_prepared
                   (nth 1 mortality_cohort_example (Build_CohortRow FNaN EmptyString))
                   (mortality_example_row 1) _ _ _) _).
  - intro H. vm_compute in H. discriminate H.
  - left. reflexivity.
  - reflexivity.
  - reflexivity.
Defined.

(* ------------------------------------------------------------------------- *)
(** ** Eligibility *)

Lemma truthy_of_bool (b : bool) : truthy (of_bool b) = b.
Proof. destruct b; reflexivity. Qed.

Lemma harm_eligible_bool (df : frame) (i : nat) :
  harm_eligible df i
  = of_bool (negb (flt (col df "age" i) (FFin 18))
             && negb (feqb (col df "pregnant" i) (FFin 1))
             && (notna (col df "hscrp" i) && notna (col df "albumin" i)
                 && notna (col df "grip_max" i))).
Proof.
  unfold harm_eligible.
  destruct (notna (col df "hscrp" i) && notna (col df "albumin" i)
            && notna (col df "grip_max" i));
    destruct (feqb (col df "pregnant" i) (FFin 1));
    destruct (flt (col df "age" i) (FFin 18)); reflexivity.
Qed.

(** A frame as [apply_eligibility_criteria] receives it.  The first row has
    the three components but neither a composite index (its hs-CRP is 0, whose
    logarithm is dropped) nor a survey weight; the second has an hs-CRP of 15. *)
Definition eligibility_example : frame := mk_frame 2
  [ ("age", FZ [30; 40]%Z);
    ("pregnant", FZ [0; 0]%Z);
    ("hscrp", FZ [0; 15]%Z);
    ("albumin", FZ [4; 4]%Z);
    ("grip_max", FZ [30; 35]%Z);
    ("iri", [FNaN; fZ 1]);
    ("WTMEC2YR", [FNaN; fZ 1]);
    ("WTMECPRP", [FNaN; FNaN]) ]%string.

Definition eligibility_example_out : frame :=
  frame_of eligibility_example (apply_eligibility_criteria eligibility_example).

Lemma eligibility_example_runs :
  apply_eligibility_criteria eligibility_example = Some (tt, eligibility_example_out).
Proof. apply succeeds_frame_of. vm_compute. reflexivity. Qed.

(** C7, as stated, on one row of each script's output. *)
Definition ceiling_only_in_primary_flag (eligible age age_floor iri weight hscrp : fval)
  : Prop :=
  (eligible = FFin 1 ->
   fge age age_floor = true /\ notna iri = true /\ notna weight = true)
  /\ (fge age age_floor = true -> notna iri = true -> notna weight = true ->
      notna hscrp = true -> eligible = FFin 1).

(** In the cohort script an adult with a composite index, a survey weight
    and an hs-CRP of 12 is not eligible; in the harmonization script a row
    without composite index and without survey weight is eligible. *)
Lemma ceiling_only_in_primary_flag_fails :
  ~ ceiling_only_in_primary_flag
      (col cohort_example_out "eligible" 4%nat) (col cohort_example_out "age" 4%nat)
      (FFin 20) (col cohort_example_out "iri" 4%nat)
      (col cohort_example_out "mec_weight" 4%nat)
      (col cohort_example_out "hscrp" 4%nat)
  /\ ~ ceiling_only_in_primary_flag
      (col eligibility_example_out "eligible" 0%nat)
      (col eligibility_example_out "age" 0%nat) (FFin 18)
      (col eligibility_example_out "iri" 0%nat)
      (cohort_weight eligibility_example_out 0%nat)
      (col eligibility_example_out "hscrp" 0%nat).
Proof.
  split; intros [H1 H2].
  - assert (E : col cohort_example_out "eligible" 4%nat = FFin 1)
      by (apply H2; vm_compute; reflexivity).
    vm_compute in E. discriminate E.
  - assert (E : notna (col eligibility_example_out "iri" 0%nat) = true)
      by (apply H1; vm_compute; reflexivity).
    vm_compute in E. discriminate E.
Qed.

(** C7, amended.  Cohort script: a row is eligible exactly when its age is at
    least 20, its composite index is present, its hs-CRP is at most 10 and its
    survey weight is present; there is no primary-analysis flag.
    Harmonization script: a row is eligible exactly when its age is not below
    18, it is not pregnant and hs-CRP, albumin and grip strength are present
    (neither the composite index nor the survey weight is consulted, and the
    value of a present hs-CRP does not matter); the primary-analysis flag is
    eligibility together with hs-CRP at most 10. *)
Theorem eligibility_as_coded (O : RealOps) (df out hdf hout : frame) (i : nat) :
  build_iri_cohort O df = Some (tt, out) ->
  apply_eligibility_criteria hdf = Some (tt, hout) ->
  col out "eligible" i
  = of_bool (fge (col out "age" i) (FFin 20) && notna (col out "iri" i)
             && fle (col out "hscrp" i) (FFin 10) && notna (col out "mec_weight" i))
  /\ col hout "eligible" i
     = of_bool (negb (flt (col hdf "age" i) (FFin 18))
                && negb (feqb (col hdf "pregnant" i) (FFin 1))
                && (notna (col hdf "hscrp" i) && notna (col hdf "albumin" i)
                    && notna (col hdf "grip_max" i)))
  /\ col hout "primary_analysis" i
     = of_bool (feqb (col hout "eligible" i) (FFin 1)
                && fle (col hdf "hscrp" i) (FFin 10)).
Proof.
  intros Hc Hh.
  apply build_iri_cohort_run in Hc. apply apply_eligibility_criteria_run in Hh.
  unfold col at 1 2 3 4 5 6 12 13.
  rewrite (get_or_some _ _ _ _ (cr_out_eligible _ _ _ Hc)),
    (get_or_some _ _ _ _ (cr_out_age _ _ _ Hc)),
    (get_or_some _ _ _ _ (cr_out_iri _ _ _ Hc)),
    (get_or_some _ _ _ _ (cr_out_hscrp _ _ _ Hc)),
    (get_or_some _ _ _ _ (cr_out_weight _ _ _ Hc)),
    (get_or_some _ _ _ _ (er_out_eligible _ _ Hh)),
    (get_or_some _ _ _ _ (er_out_primary _ _ Hh)).
  split; [|split].
  - unfold cohort_eligible. now rewrite !truthy_of_bool.
  - apply harm_eligible_bool.
  - reflexivity.
Qed.

Lemma eligibility_as_coded_witness :
  col cohort_example_out "eligible" 1%nat
  = of_bool (fge (col cohort_example_out "age" 1%nat) (FFin 20)
             && notna (col cohort_example_out "iri" 1%nat)
             && fle (col cohort_example_out "hscrp" 1%nat) (FFin 10)
             && notna (col cohort_example_out "mec_weight" 1%nat))
  /\ col eligibility_example_out "eligible" 1%nat
     = of_bool (negb (flt (col eligibility_example "age" 1%nat) (FFin 18))
                && negb (feqb (col eligibility_example "pregnant" 1%nat) (FFin 1))
                && (notna (col eligibility_example "hscrp" 1%nat)
                    && notna (col eligibility_example "albumin" 1%nat)
                    && notna (col eligibility_example "grip_max" 1%nat)))
  /\ col eligibility_example_out "primary_analysis" 1%nat
     = of_bool (feqb (col eligibility_example_out "eligible" 1%nat) (FFin 1)
                && fle (col eligibility_example "hscrp" 1%nat) (FFin 10)).
Proof.
  exact (eligibility_as_coded approx_ops cohort_example cohort_example_out
           eligibility_example eligibility_example_out 1%nat
           cohort_example_runs eligibility_example_runs).
Defined.

(* ------------------------------------------------------------------------- *)
(** ** Standardization: what the mean and the standard deviation guarantee *)

Lemma fold_fadd_not_finite (l : list fval) (acc : fval) :
  is_finite acc = false -> is_finite (fold_left fadd l acc) = false.
Proof.
  revert acc. induction l as [|x t IH]; intros acc H; cbn [fold_left]; [exact H|].
  apply IH. destruct acc as [|a|p]; [reflexivity| |discriminate H].
  destruct x as [|b|q]; cbn; [reflexivity | | reflexivity].
  destruct (Bool.eqb a b); reflexivity.
Qed.

Definition Qsum (qs : list Q) : Q := fold_right Qplus 0 qs.

(** A finite sum has finite terms only. *)
Lemma fold_fadd_finite_inv (l : list fval) (acc S : Q) :
  fold_left fadd l (FFin acc) = FFin S ->
  exists qs, l = map FFin qs /\ S == acc + Qsum qs.
Proof.
  revert acc. induction l as [|x t IH]; intros acc H; cbn [fold_left] in H.
  - exists []. split; [reflexivity|]. injection H as <-.
    unfold Qsum. cbn [fold_right]. ring.
  - destruct x as [|b|q].
    + pose proof (fold_fadd_not_finite t FNaN eq_refl) as Hn.
      cbn in H. rewrite H in Hn. discriminate Hn.
    + pose proof (fold_fadd_not_finite t (FInf b) eq_refl) as Hn.
      cbn in H. rewrite H in Hn. discriminate Hn.
    + cbn [fadd] in H. destruct (IH _ H) as [qs [-> Hs]].
      exists (q :: qs). split; [reflexivity|].
      unfold Qsum in *. cbn [fold_right]. rewrite Hs. ring.
Qed.

Lemma Qsum_nonneg (qs : list Q) : (forall s, In s qs -> 0 <= s) -> 0 <= Qsum qs.
Proof.
  induction qs as [|q t IH]; intro H; unfold Qsum; cbn [fold_right];
    [apply Qle_refl|].
  fold (Qsum t).
  assert (0 <= q) by (apply H; left; reflexivity).
  assert (0 <= Qsum t) by (apply IH; intros s Hs; apply H; right; exact Hs).
  lra.
Qed.

Lemma Qsum_zero (qs : list Q) :
  (forall s, In s qs -> 0 <= s) -> Qsum qs == 0 -> forall s, In s qs -> s == 0.
Proof.
  induction qs as [|q t IH]; intros Hpos Hsum s Hs; [destruct Hs|].
  assert (Hq : 0 <= q) by (apply Hpos; left; reflexivity).
  assert (Ht : 0 <= Qsum t)
    by (apply Qsum_nonneg; intros s' Hs'; apply Hpos; right; exact Hs').
  unfold Qsum in Hsum. cbn [fold_right] in Hsum. fold (Qsum t) in Hsum.
  destruct Hs as [<-|Hs]; [lra|].
  apply IH; [intros s' Hs'; apply Hpos; right; exact Hs' | lra | exact Hs].
Qed.

Lemma Qsq_nonneg (x : Q) : 0 <= x * x.
Proof. unfold Qle, Qmult. cbn. rewrite Z.mul_1_r. apply Z.square_nonneg. Qed.

Lemma Qsq_zero (x : Q) : x * x == 0 -> x == 0.
Proof. intro H. destruct (Qmult_integral _ _ H); assumption. Qed.

(** The squared deviation of a cell from the average is finite only when
    both are. *)
Lemma dev2_finite_inv (avg v : fval) (s : Q) :
  fmul (fsub avg v) (fsub avg v) = FFin s ->
  exists a q, avg = FFin a /\ v = FFin q /\ s = (a - q) * (a - q).
Proof.
  destruct avg as [|x|a], v as [|y|q]; cbn; try discriminate.
  - destruct (Bool.eqb x y); discriminate.
  - intro H. injection H as <-. exists a, q. repeat split.
Qed.

Lemma fnat_pos (c : nat) : (1 <= c)%nat -> Qeq_bool (inject_Z (Z.of_nat c)) 0 = false.
Proof.
  intro H. destruct (Qeq_bool (inject_Z (Z.of_nat c)) 0) eqn:E; [|reflexivity].
  apply Qeq_bool_iff in E. unfold Qeq in E. cbn in E. lia.
Qed.

Lemma fnat_gt0 (c : nat) : (1 <= c)%nat -> 0 < inject_Z (Z.of_nat c).
Proof. intro H. unfold Qlt. cbn. lia. Qed.

Lemma count_filter (l : list fval) : count l = List.length (filter notna l).
Proof. reflexivity. Qed.

(** What a finite variance says about the column: the average is finite,
    every present cell is finite, and a variance of zero forces every present
    cell to equal the average. *)
Lemma var_finite_inv (l : list fval) (v : Q) :
  var l = FFin v ->
  exists a,
    mean l = FFin a
    /\ 0 <= v
    /\ (forall x, In x l -> x = FNaN \/ exists q, x = FFin q)
    /\ (v == 0 -> forall q, In (FFin q) l -> q == a).
Proof.
  unfold var, mean. cbv zeta.
  destruct (Nat.leb (count l) 1) eqn:Ec; [discriminate|].
  apply Nat.leb_gt in Ec.
  destruct (count l) as [|c'] eqn:Ecount; [lia|].
  set (avg := fdiv (nansum l) (fnat (S c'))).
  set (sqr := map (fun v0 => fmul (fsub avg v0) (fsub avg v0)) (filter notna l)).
  intro H.
  assert (Hk : Qeq_bool (inject_Z (Z.of_nat (S c' - 1))) 0 = false)
    by (apply fnat_pos; lia).
  assert (Hk0 : 0 < inject_Z (Z.of_nat (S c' - 1))) by (apply fnat_gt0; lia).
  destruct (fold_left fadd sqr (FFin 0)) as [|b|S0] eqn:Ef;
    unfold fnat in H; cbn [fdiv] in H; try discriminate H.
  rewrite Hk in H. injection H as <-.
  destruct (fold_fadd_finite_inv _ _ _ Ef) as [qs [Hqs HS]].
  (* some present cell exists *)
  assert (Hne : exists x0, In x0 (filter notna l)).
  { rewrite count_filter in Ecount.
    destruct (filter notna l) as [|x0 t]; [discriminate Ecount|].
    exists x0. left. reflexivity. }
  assert (Hdev : forall x, In x (filter notna l) ->
            exists a q, avg = FFin a /\ x = FFin q /\ In ((a - q) * (a - q)) qs).
  { intros x Hx.
    assert (Hin : In (fmul (fsub avg x) (fsub avg x)) sqr)
      by (apply in_map_iff; exists x; split; [reflexivity | exact Hx]).
    rewrite Hqs in Hin. apply in_map_iff in Hin. destruct Hin as [s [Hs Hins]].
    symmetry in Hs. destruct (dev2_finite_inv _ _ _ Hs) as [a [q [Ha [Hq ->]]]].
    exists a, q. repeat split; assumption. }
  destruct Hne as [x0 Hx0].
  destruct (Hdev x0 Hx0) as [a [q0 [Ha _]]].
  exists a. split; [exact Ha|].
  assert (Hpos : forall s, In s qs -> 0 <= s).
  { intros s Hs.
    assert (Hin : In (FFin s) sqr) by (rewrite Hqs; apply in_map; exact Hs).
    apply in_map_iff in Hin. destruct Hin as [x [Hx _]].
    destruct (dev2_finite_inv _ _ _ Hx) as [a' [q' [_ [_ ->]]]].
    apply Qsq_nonneg. }
  split; [|split].
  - assert (0 <= S0) by (rewrite HS; pose proof (Qsum_nonneg qs Hpos); lra).
    apply Qle_shift_div_l; [exact Hk0 | lra].
  - intros x Hx. destruct x as [|b|q]; [left; reflexivity | | right; eexists; reflexivity].
    assert (Hp : In (FInf b) (filter notna l))
      by (apply filter_In; split; [exact Hx | reflexivity]).
    destruct (Hdev _ Hp) as [? [? [_ [Hq _]]]]. discriminate Hq.
  - intros Hv q Hq.
    assert (HS0 : S0 == 0).
    { assert (S0 == S0 / inject_Z (Z.of_nat (S c' - 1)) * inject_Z (Z.of_nat (S c' - 1)))
        by (field; lra).
      rewrite H, Hv. ring. }
    assert (Hp : In (FFin q) (filter notna l))
      by (apply filter_In; split; [exact Hq | reflexivity]).
    destruct (Hdev _ Hp) as [a' [q' [Ha' [Hq' Hin]]]].
    injection Hq' as <-. rewrite Ha in Ha'. injection Ha' as <-.
    assert (Hz : (a - q) * (a - q) == 0)
      by (apply (Qsum_zero qs Hpos); [lra | exact Hin]).
    apply Qsq_zero in Hz. lra.
Qed.

Lemma std_cases (O : RealOps) (l : list fval) :
  std O l = FNaN \/ std O l = FInf false
  \/ exists v, var l = FFin v /\ 0 <= v /\ std O l = FFin (sqrt_q O v).
Proof.
  unfold std, fsqrt. destruct (var l) as [|s|v] eqn:Ev.
  - left. reflexivity.
  - destruct s; [left | right; left]; reflexivity.
  - destruct (Qlt_bool v 0) eqn:E; [left; reflexivity|].
    right. right. exists v. repeat split.
    unfold Qlt_bool in E. apply negb_false_iff, Qle_bool_iff in E. exact E.
Qed.

Lemma sqrt_q_zero_inv (O : RealOps) (v : Q) : 0 <= v -> sqrt_q O v == 0 -> v == 0.
Proof.
  intros Hv Hs. destruct (Qlt_le_dec 0 v) as [Hlt|Hle]; [|lra].
  pose proof (sqrt_q_pos O v Hlt). lra.
Qed.

(** A standardized cell is never infinite. *)
Lemma zscore_cell_not_inf (O : RealOps) (l : list fval) (x : fval) :
  In x l -> isinf (fdiv (fsub x (mean l)) (std O l)) = false.
Proof.
  intro Hx. destruct (std_cases O l) as [E|[E|[v [Ev [Hv E]]]]]; rewrite E.
  - destruct (fsub x (mean l)); reflexivity.
  - destruct (fsub x (mean l)); reflexivity.
  - destruct (var_finite_inv l v Ev) as [a [Ha [_ [Hfin Hzero]]]].
    rewrite Ha. destruct (Hfin x Hx) as [->|[q ->]]; [reflexivity|].
    cbn [fsub fdiv].
    destruct (Qeq_bool (sqrt_q O v) 0) eqn:Es; [|reflexivity].
    apply Qeq_bool_iff in Es. apply (sqrt_q_zero_inv O v Hv) in Es.
    assert (Hq : q == a) by (apply Hzero; assumption).
    assert (Hz : Qeq_bool (q - a) 0 = true) by (apply Qeq_bool_iff; lra).
    rewrite Hz. reflexivity.
Qed.


Lemma in_cells (n : nat) (xs : Series) (i : nat) : (i < n)%nat -> In (xs i) (cells n xs).
Proof. intro H. unfold cells. apply in_map, in_seq. lia. Qed.

Lemma in_loc_cells (n : nat) (mask : nat -> bool) (xs : Series) (i : nat) :
  (i < n)%nat -> mask i = true -> In (xs i) (loc_cells n mask xs).
Proof.
  intros H Hm. unfold loc_cells. apply in_map, filter_In.
  split; [apply in_seq; lia | exact Hm].
Qed.

Lemma pooled_z_not_inf (O : RealOps) (n : nat) (xs : Series) (i : nat) :
  (i < n)%nat -> isinf (pooled_z O n xs i) = false.
Proof. intro H. apply zscore_cell_not_inf, in_cells, H. Qed.

Lemma isinf_false_cases (x : fval) : isinf x = false -> x = FNaN \/ exists q, x = FFin q.
Proof.
  destruct x as [|s|q]; [left; reflexivity | discriminate | right; eexists; reflexivity].
Qed.

(** Adding a cell to one that is not infinite: NaN exactly when one is NaN. *)
Lemma isna_fadd (x y : fval) :
  isinf x = false -> isna (fadd x y) = isna x || isna y.
Proof. destruct x as [|s|p], y as [|t|q]; cbn; try reflexivity; discriminate. Qed.

Lemma isinf_fadd (x y : fval) :
  isinf x = false -> isinf y = false -> isinf (fadd x y) = false.
Proof. destruct x as [|s|p], y as [|t|q]; cbn; try reflexivity; discriminate. Qed.

Lemma isinf_fmul_fin (x : fval) (c : Q) : isinf x = false -> isinf (fmul x (FFin c)) = false.
Proof. destruct x as [|s|p]; cbn; try reflexivity; discriminate. Qed.

Lemma isna_fmul_fin (x : fval) (c : Q) : isinf x = false -> isna (fmul x (FFin c)) = isna x.
Proof. destruct x as [|s|p]; cbn; try reflexivity; discriminate. Qed.

Lemma isinf_fneg (x : fval) : isinf (fneg x) = isinf x.
Proof. destruct x; reflexivity. Qed.

Lemma isna_fneg (x : fval) : isna (fneg x) = isna x.
Proof. destruct x; reflexivity. Qed.

(** The sex-specific standardized columns are never infinite either. *)
Lemma z_almi_update_not_inf (O : RealOps) (n : nat) (sex almi : Series) (sex_val : fval)
  (z : Series) (i : nat) :
  (i < n)%nat -> isinf (z i) = false ->
  isinf (z_almi_update O n sex almi sex_val z i) = false.
Proof.
  intros Hi Hz. unfold z_almi_update, almi_divisor, loc_assign. cbv zeta.
  destruct (fgt (std O (loc_cells n (s_test feqb sex sex_val) almi)) (FFin 0));
    [|exact Hz].
  destruct (s_test feqb sex sex_val i) eqn:Em; [|exact Hz].
  apply zscore_cell_not_inf, in_loc_cells; assumption.
Qed.

Lemma z_grip_update_not_inf (O : RealOps) (n : nat) (sex grip : Series) (sex_val : fval)
  (z : Series) (i : nat) :
  (i < n)%nat -> isinf (z i) = false ->
  isinf (z_grip_update O n sex grip sex_val z i) = false.
Proof.
  intros Hi Hz. unfold z_grip_update, grip_divisor, loc_assign. cbv zeta.
  destruct (Nat.ltb 0 (mask_sum n (s_test feqb sex sex_val))); [|exact Hz].
  destruct (s_test feqb sex sex_val i) eqn:Em; [|exact Hz].
  apply zscore_cell_not_inf, in_loc_cells; assumption.
Qed.

Lemma cohort_z_crp_inv_not_inf (O : RealOps) (df : frame) (i : nat) :
  (i < nrows df)%nat -> isinf (cohort_z_crp_inv O df i) = false.
Proof.
  intro H. unfold cohort_z_crp_inv, s_scalar.
  apply isinf_fmul_fin, pooled_z_not_inf, H.
Qed.

Lemma cohort_z_almi_not_inf (O : RealOps) (df : frame) (i : nat) :
  (i < nrows df)%nat -> isinf (cohort_z_almi O df i) = false.
Proof.
  intro H. unfold cohort_z_almi. cbv zeta.
  apply z_almi_update_not_inf; [exact H|].
  apply z_almi_update_not_inf; [exact H | reflexivity].
Qed.

Lemma harm_z_grip_not_inf (O : RealOps) (df : frame) (i : nat) :
  (i < nrows df)%nat -> isinf (harm_z_grip O df i) = false.
Proof.
  intro H. unfold harm_z_grip. cbv zeta.
  apply z_grip_update_not_inf; [exact H|].
  apply z_grip_update_not_inf; [exact H | reflexivity].
Qed.

(** The composite index of a row of the frame is never infinite. *)
Lemma iri_not_inf_cohort (O : RealOps) (df : frame) (i : nat) :
  (i < nrows df)%nat -> isinf (cohort_iri O df i) = false.
Proof.
  intro H. unfold cohort_iri, s_add, s_map2.
  apply isinf_fadd; [apply isinf_fadd|].
  - apply cohort_z_crp_inv_not_inf, H.
  - apply pooled_z_not_inf, H.
  - apply cohort_z_almi_not_inf, H.
Qed.

Lemma iri_not_inf_harmonize (O : RealOps) (df : frame) (i : nat) :
  (i < nrows df)%nat -> isinf (harm_iri O df i) = false.
Proof.
  intro H. unfold harm_iri, s_add, s_map2, s_map.
  apply isinf_fadd; [apply isinf_fadd|].
  - rewrite isinf_fneg. apply pooled_z_not_inf, H.
  - apply pooled_z_not_inf, H.
  - apply harm_z_grip_not_inf, H.
Qed.

(* ------------------------------------------------------------------------- *)
(** ** The composite index *)

(** Six participants of the harmonization study: the two men have the same
    grip strength, so the standard deviation of their subgroup is zero. *)
Definition harmonize_example : frame := mk_frame 6
  [ ("RIDAGEYR", FZ [30; 40; 50; 60; 25; 10]%Z);
    ("RIAGENDR", FZ [1; 1; 2; 2; 2; 2]%Z);
    ("LBXHSCRP", FZ [1; 2; 3; 1; 12; 4]%Z);
    ("LBXSAL", FZ [4; 5; 4; 3; 4; 5]%Z);
    ("MGXH1T1", FZ [30; 28; 20; 25; 22; 28]%Z);
    ("MGXH2T1", FZ [29; 30; 19; 24; 21; 27]%Z) ]%string.

Definition harmonize_example_out : frame :=
  frame_of harmonize_example (construct_iri approx_ops harmonize_example).

Lemma harmonize_example_runs :
  construct_iri approx_ops harmonize_example = Some (tt, harmonize_example_out).
Proof. apply succeeds_frame_of. vm_compute. reflexivity. Qed.

(** C1.  On every row of the frame the composite index is the sum of the
    three standardized components, the hs-CRP component entering with its
    sign flipped, and it is NaN exactly when one of the three is NaN; this
    holds for the cohort script (lean-mass index as third component) and for
    the harmonization script (grip strength). *)
Theorem iri_missing_iff_component_missing (O : RealOps) (df out hdf hout : frame)
  (i j : nat) :
  build_iri_cohort O df = Some (tt, out) ->
  construct_iri O hdf = Some (tt, hout) ->
  (i < nrows df)%nat -> (j < nrows hdf)%nat ->
  (col out "z_crp_inv" i = fmul (col out "z_crp" i) (FFin (- (1)))
   /\ col out "iri" i
      = fadd (fadd (col out "z_crp_inv" i) (col out "z_albumin" i)) (col out "z_almi" i)
   /\ isna (col out "iri" i)
      = isna (col out "z_crp_inv" i) || isna (col out "z_albumin" i)
        || isna (col out "z_almi" i)
   /\ (forall a b c, col out "z_crp" i = FFin a -> col out "z_albumin" i = FFin b ->
       col out "z_almi" i = FFin c -> col out "iri" i = FFin (a * - (1) + b + c)))
  /\ (col hout "iri" j
      = fadd (fadd (fneg (col hout "z_log_hscrp" j)) (col hout "z_albumin" j))
             (col hout "z_grip" j)
      /\ isna (col hout "iri" j)
         = isna (col hout "z_log_hscrp" j) || isna (col hout "z_albumin" j)
           || isna (col hout "z_grip" j)
      /\ (forall a b c, col hout "z_log_hscrp" j = FFin a ->
          col hout "z_albumin" j = FFin b -> col hout "z_grip" j = FFin c ->
          col hout "iri" j = FFin (- a + b + c))).
Proof.
  intros Hc Hh Hi Hj.
  apply build_iri_cohort_run in Hc. apply construct_iri_run in Hh.
  unfold col.
  rewrite (get_or_some _ _ _ _ (cr_out_iri _ _ _ Hc)),
    (get_or_some _ _ _ _ (cr_out_z_crp _ _ _ Hc)),
    (get_or_some _ _ _ _ (cr_out_z_crp_inv _ _ _ Hc)),
    (get_or_some _ _ _ _ (cr_out_z_albumin _ _ _ Hc)),
    (get_or_some _ _ _ _ (cr_out_z_almi _ _ _ Hc)),
    (get_or_some _ _ _ _ (hr_out_iri _ _ _ Hh)),
    (get_or_some _ _ _ _ (hr_out_z_log_hscrp _ _ _ Hh)),
    (get_or_some _ _ _ _ (hr_out_z_albumin _ _ _ Hh)),
    (get_or_some _ _ _ _ (hr_out_z_grip _ _ _ Hh)).
  pose proof (cohort_z_crp_inv_not_inf O df i Hi) as Hzc.
  pose proof (pooled_z_not_inf O (nrows df) (get_or df "LBXSAL" nan_series) i Hi) as Hza.
  pose proof (pooled_z_not_inf O (nrows hdf) (log_hscrp_col O hdf) j Hj) as Hzl.
  pose proof (pooled_z_not_inf O (nrows hdf) (get_or hdf "LBXSAL" nan_series) j Hj) as Hzb.
  split; [split; [|split; [|split]] | split; [|split]].
  - reflexivity.
  - reflexivity.
  - unfold cohort_iri, s_add, s_map2, col.
    rewrite isna_fadd by (apply isinf_fadd; assumption).
    now rewrite isna_fadd by assumption.
  - intros a b c Ha Hb Hcc.
    unfold cohort_iri, cohort_z_crp_inv, s_add, s_map2, s_scalar.
    rewrite Ha, Hb, Hcc. reflexivity.
  - reflexivity.
  - unfold harm_iri, harm_z_log_hscrp, s_add, s_map2, s_map, col.
    rewrite isna_fadd
      by (apply isinf_fadd; [rewrite isinf_fneg|]; assumption).
    rewrite isna_fadd by (rewrite isinf_fneg; assumption).
    now rewrite isna_fneg.
  - intros a b c Ha Hb Hcc. unfold harm_iri, harm_z_log_hscrp, s_add, s_map2, s_map.
    unfold harm_z_log_hscrp in Ha. rewrite Ha, Hb, Hcc. reflexivity.
Qed.

Lemma iri_missing_iff_component_missing_witness :
  (col cohort_example_out "z_crp_inv" 0%nat
   = fmul (col cohort_example_out "z_crp" 0%nat) (FFin (- (1)))
   /\ col cohort_example_out "iri" 0%nat
      = fadd (fadd (col cohort_example_out "z_crp_inv" 0%nat)
                   (col cohort_example_out "z_albumin" 0%nat))
             (col cohort_example_out "z_almi" 0%nat)
   /\ isna (col cohort_example_out "iri" 0%nat)
      = isna (col cohort_example_out "z_crp_inv" 0%nat)
        || isna (col cohort_example_out "z_albumin" 0%nat)
        || isna (col cohort_example_out "z_almi" 0%nat))
  /\ (col harmonize_example_out "iri" 0%nat
      = fadd (fadd (fneg (col harmonize_example_out "z_log_hscrp" 0%nat))
                   (col harmonize_example_out "z_albumin" 0%nat))
             (col harmonize_example_out "z_grip" 0%nat)
      /\ isna (col harmonize_example_out "iri" 0%nat)
         = isna (col harmonize_example_out "z_log_hscrp" 0%nat)
           || isna (col harmonize_example_out "z_albumin" 0%nat)
           || isna (col harmonize_example_out "z_grip" 0%nat)).
Proof.
  assert (H0 : (0 < nrows cohort_example)%nat) by (cbn; lia).
  assert (H1 : (0 < nrows harmonize_example)%nat) by (cbn; lia).
  destruct (iri_missing_iff_component_missing approx_ops cohort_example
              cohort_example_out harmonize_example harmonize_example_out 0%nat 0%nat
              cohort_example_runs harmonize_example_runs H0 H1)
    as [[A1 [A2 [A3 _]]] [B1 [B2 _]]].
  exact (conj (conj A1 (conj A2 A3)) (conj B1 B2)).
Defined.

(* ------------------------------------------------------------------------- *)
(** ** Sex-specific standardization with a degenerate subgroup *)
















(* ------------------------------------------------------------------------- *)
(** ** Quartiles of the composite index *)

(** The cut points [pd.qcut] computes from the cells of the rows selected by
    a mask. *)
Definition cut_points (n : nat) (mask : nat -> bool) (x : Series) : list fval :=
  qcut_edges (filter notna (loc_cells n mask x)).

Definition everyone : nat -> bool := fun _ => true.

Lemma loc_cells_everyone (n : nat) (x : Series) : loc_cells n everyone x = cells n x.
Proof.
  unfold loc_cells, cells. f_equal.
  induction (seq 0 n) as [|a l IH]; [reflexivity|]. cbn. now rewrite IH.
Qed.

(** The label of a cell under given cut points. *)
Definition bucket_label (bins : list fval) (labels : list string) (x : fval)
  : option string :=
  match bucket bins x with
  | Some b => nth_error labels b
  | None => None
  end.

(** [qcut] bins with the cut points of the whole column. *)
Lemma qcut_uses_all_cells (n : nat) (x : Series) (labels : list string)
  (q : nat -> option string) (i : nat) :
  qcut n x labels = Some q ->
  q i = bucket_label (cut_points n everyone x) labels (x i).
Proof.
  unfold qcut, cut_points. rewrite loc_cells_everyone. cbv zeta.
  destruct (forallb is_finite (qcut_edges (filter notna (cells n x)))
            && increasing (qcut_edges (filter notna (cells n x)))); [|discriminate].
  intro H. injection H as <-. reflexivity.
Qed.

(** C2, as stated, for one run: the cut points are those of the eligible
    rows. *)
Definition binned_over_eligible_only (out : frame) : Prop :=
  let n := nrows out in
  cut_points n everyone (col out "iri")
  = cut_points n (fun i => truthy (col out "eligible" i)) (col out "iri").

(** In [cohort_example] the participant with hs-CRP 12 and the child have a
    composite index and are not eligible; the quartile edges computed by the
    script differ from those of the four eligible participants. *)
Lemma quartiles_include_ineligible :
  map truthy (cells 6 (col cohort_example_out "eligible"))
  = [true; true; true; true; false; false]
  /\ map notna (cells 6 (col cohort_example_out "iri"))
     = [true; true; true; true; true; true]
  /\ ~ binned_over_eligible_only cohort_example_out.
Proof.
  split; [vm_compute; reflexivity | split; [vm_compute; reflexivity|]].
  unfold binned_over_eligible_only. cbv zeta. intro H.
  assert (E : feqb (nth 1 (cut_points (nrows cohort_example_out) everyone
                             (col cohort_example_out "iri")) FNaN)
                   (nth 1 (cut_points (nrows cohort_example_out)
                             (fun i => truthy (col cohort_example_out "eligible" i))
                             (col cohort_example_out "iri")) FNaN) = false)
    by (vm_compute; reflexivity).
  rewrite <- H in E.
  assert (E' : feqb (nth 1 (cut_points (nrows cohort_example_out) everyone
                              (col cohort_example_out "iri")) FNaN)
                    (nth 1 (cut_points (nrows cohort_example_out) everyone
                              (col cohort_example_out "iri")) FNaN) = true)
    by (vm_compute; reflexivity).
  congruence.
Qed.

Lemma cohort_iri_ignores_age_weight (O : RealOps) (df : frame) (age' w' : Series) :
  cohort_iri O (set_col (set_col df "RIDAGEYR" age') "WTMEC2YR" w') = cohort_iri O df.
Proof.
  change (set_col (set_col df "RIDAGEYR" age') "WTMEC2YR" w')
    with (push [("WTMEC2YR", w'); ("RIDAGEYR", age')]%string [] df).
  unfold cohort_iri, cohort_z_crp_inv, cohort_z_almi, cohort_almi, log_hscrp_col, col.
  set (l := [("WTMEC2YR", w'); ("RIDAGEYR", age')]%string).
  rewrite (calculate_alm_push l [] df eq_refl),
    !(get_or_push_raw "LBXHSCRP" nan_series l [] df eq_refl),
    !(get_or_push_raw "LBXSAL" nan_series l [] df eq_refl),
    !(get_or_push_raw "BMXHT" nan_series l [] df eq_refl),
    !(get_or_push_raw "RIAGENDR" nan_series l [] df eq_refl).
  reflexivity.
Qed.

Lemma harm_iri_ignores_age_pregnancy (O : RealOps) (df : frame) (age' p' : Series) :
  harm_iri O (set_col (set_col df "RIDAGEYR" age') "RIDEXPRG" p') = harm_iri O df.
Proof.
  change (set_col (set_col df "RIDAGEYR" age') "RIDEXPRG" p')
    with (push [("RIDEXPRG", p'); ("RIDAGEYR", age')]%string [] df).
  unfold harm_iri, harm_z_log_hscrp, harm_z_grip, log_hscrp_col, col.
  set (l := [("RIDEXPRG", p'); ("RIDAGEYR", age')]%string).
  rewrite (compute_max_grip_strength_push l [] df eq_refl),
    !(get_or_push_raw "LBXHSCRP" nan_series l [] df eq_refl),
    !(get_or_push_raw "LBXSAL" nan_series l [] df eq_refl),
    !(get_or_push_raw "RIAGENDR" nan_series l [] df eq_refl).
  reflexivity.
Qed.

(* ------------------------------------------------------------------------- *)
(** ** The outer edges of [qcut] enclose every present cell *)

Definition fin (x : fval) : Prop := is_finite x = true.

Definition fle_true (x y : fval) : Prop := fle x y = true.

Lemma fle_total (x y : fval) : fin x -> fin y -> fle x y = false -> fle y x = true.
Proof.
  destruct x as [| |p], y as [| |q]; try discriminate. intros _ _. cbn.
  intro H. apply Qle_bool_iff.
  destruct (Qlt_le_dec q p) as [L|L]; [lra|].
  apply Qle_bool_iff in L. congruence.
Qed.

Lemma fle_trans (x y z : fval) :
  fin x -> fin y -> fin z -> fle x y = true -> fle y z = true -> fle x z = true.
Proof.
  destruct x as [| |p], y as [| |q], z as [| |r]; try discriminate.
  intros _ _ _. cbn. rewrite !Qle_bool_iff. lra.
Qed.

Lemma fle_refl (x : fval) : fin x -> fle x x = true.
Proof.
  destruct x as [| |p]; try discriminate. intros _. cbn. apply Qle_bool_iff. lra.
Qed.

Lemma insert_sorted_In (x y : fval) (l : list fval) :
  In y (insert_sorted x l) <-> y = x \/ In y l.
Proof.
  induction l as [|a l IH]; cbn.
  - intuition.
  - destruct (fle x a); cbn; [intuition|]. rewrite IH. intuition.
Qed.

Lemma sort_f_In (y : fval) (l : list fval) : In y (sort_f l) <-> In y l.
Proof.
  induction l as [|a l IH]; cbn; [tauto|].
  fold (sort_f l). rewrite insert_sorted_In, IH. intuition.
Qed.

Lemma sort_f_fin (l : list fval) : Forall fin l -> Forall fin (sort_f l).
Proof.
  rewrite !Forall_forall. intros H y Hy. apply H. now apply sort_f_In.
Qed.

(** Insertion keeps a list of finite cells in order: every cell is below all
    the cells after it. *)
Lemma insert_sorted_ordered (x : fval) (l : list fval) :
  fin x -> Forall fin l ->
  StronglySorted fle_true l -> StronglySorted fle_true (insert_sorted x l).
Proof.
  intros Hx Hl Hs. induction Hs as [|a l Hs IH Ha]; cbn.
  - constructor; constructor.
  - inversion Hl as [|? ? Fa Fl]; subst.
    destruct (fle x a) eqn:E.
    + constructor; [now constructor|].
      constructor; [exact E|].
      rewrite Forall_forall in *. intros y Hy.
      apply (fle_trans x a y); auto. now apply Ha.
    + constructor; [now apply IH|].
      rewrite Forall_forall in *. intros y Hy.
      apply insert_sorted_In in Hy. destruct Hy as [->|Hy].
      * now apply fle_total.
      * now apply Ha.
Qed.

Lemma sort_f_ordered (l : list fval) :
  Forall fin l -> StronglySorted fle_true (sort_f l).
Proof.
  induction l as [|a l IH]; intro H; cbn; [constructor|].
  inversion H; subst. fold (sort_f l).
  apply insert_sorted_ordered; auto. now apply sort_f_fin.
Qed.

(** In an ordered list the first cell is below every cell and the last cell
    above every cell. *)
Lemma ordered_first (a : fval) (l : list fval) (y : fval) :
  Forall fin (a :: l) -> StronglySorted fle_true (a :: l) -> In y (a :: l) ->
  fle a y = true.
Proof.
  intros Hf Hs [<-|Hy].
  - apply fle_refl. now inversion Hf.
  - inversion Hs as [|? ? _ Ha]; subst.
    rewrite Forall_forall in Ha. now apply Ha.
Qed.

Lemma ordered_last (l : list fval) (y : fval) :
  Forall fin l -> StronglySorted fle_true l -> In y l ->
  fle y (nth (List.length l - 1) l FNaN) = true.
Proof.
  intros Hf Hs. induction Hs as [|a l Hs IH Ha]; intro Hy; [destruct Hy|].
  inversion Hf as [|? ? Fa Fl]; subst.
  destruct l as [|b l].
  - destruct Hy as [<-|[]]. now apply fle_refl.
  - change (nth (List.length (a :: b :: l) - 1) (a :: b :: l) FNaN)
      with (nth (List.length l) (b :: l) FNaN).
    replace (List.length l) with (List.length (b :: l) - 1)%nat by (cbn; lia).
    destruct Hy as [<-|Hy]; [|now apply IH].
    rewrite Forall_forall in Ha. apply Ha. apply nth_In. cbn. lia.
Qed.

(** Interpolation at weight 0 returns the left neighbour. *)
Lemma lerp_zero (a b t : Q) :
  t == 0 -> exists v, lerp (FFin a) (FFin b) t = FFin v /\ v == a.
Proof.
  intro Ht. unfold lerp.
  destruct (Qle_bool (1 # 2) t) eqn:E.
  - apply Qle_bool_iff in E. lra.
  - cbn. eexists. split; [reflexivity|]. rewrite Ht. ring.
Qed.

Lemma lerp_same (a t : Q) :
  exists v, lerp (FFin a) (FFin a) t = FFin v /\ v == a.
Proof.
  unfold lerp. destruct (Qle_bool (1 # 2) t); cbn;
    (eexists; split; [reflexivity | ring]).
Qed.

Lemma Qfloor_mult_zero (z : Z) : Qfloor (inject_Z z * 0) = 0%Z.
Proof. unfold Qmult, inject_Z, Qfloor. cbn. now rewrite Z.mul_0_r. Qed.

Lemma Qfloor_mult_one (z : Z) : Qfloor (inject_Z z * 1) = z.
Proof.
  unfold Qmult, inject_Z, Qfloor. cbn. now rewrite Z.mul_1_r, Z.div_1_r.
Qed.

Lemma fin_inv (x : fval) : fin x -> exists q, x = FFin q.
Proof. destruct x; try discriminate. intros _. now eexists. Qed.

Lemma fquantile_cons (present : list fval) (a : fval) (t : list fval) (p : Q) :
  sort_f present = a :: t ->
  fquantile present p
  = let h := inject_Z (Z.of_nat (List.length t)) * p in
    let lo := Z.to_nat (Qfloor h) in
    lerp (nth lo (a :: t) FNaN)
         (nth (Nat.min (lo + 1) (List.length t)) (a :: t) FNaN)
         (h - inject_Z (Qfloor h)).
Proof.
  intro S. unfold fquantile. rewrite S. cbv zeta.
  change (List.length (a :: t) - 1)%nat with (List.length t - 0)%nat.
  now rewrite Nat.sub_0_r.
Qed.

(** The lowest edge is the smallest present cell, the highest edge the
    largest. *)
Lemma fquantile_zero_below (present : list fval) (y : fval) :
  Forall fin present -> In y present ->
  exists v w, fquantile present 0 = FFin v /\ y = FFin w /\ v <= w.
Proof.
  intros Hf Hy.
  pose proof (sort_f_fin _ Hf) as Hsf. pose proof (sort_f_ordered _ Hf) as Hso.
  apply sort_f_In in Hy.
  destruct (sort_f present) as [|a t] eqn:S; [destruct Hy|].
  rewrite (fquantile_cons _ _ _ _ S). cbv zeta.
  rewrite Qfloor_mult_zero. change (Z.to_nat 0) with 0%nat.
  pose proof (ordered_first a t y Hsf Hso Hy) as Hle.
  assert (Hb : fin (nth (Nat.min (0 + 1) (List.length t)) (a :: t) FNaN)).
  { rewrite Forall_forall in Hsf. apply Hsf, nth_In. cbn [List.length]. lia. }
  apply fin_inv in Hb. destruct Hb as [qb Hb]. rewrite Hb.
  assert (Ha : fin a) by now inversion Hsf.
  apply fin_inv in Ha. destruct Ha as [qa ->].
  cbn [nth].
  destruct (lerp_zero qa qb (inject_Z (Z.of_nat (List.length t)) * 0 - inject_Z 0))
    as [v [Ev Hv]].
  { change (inject_Z 0) with 0. ring. }
  rewrite Ev.
  assert (Hw : fin y).
  { rewrite Forall_forall in Hsf. now apply Hsf. }
  apply fin_inv in Hw. destruct Hw as [w ->].
  exists v, w. split; [reflexivity | split; [reflexivity|]].
  cbn in Hle. apply Qle_bool_iff in Hle. lra.
Qed.

Lemma fquantile_one_above (present : list fval) (y : fval) :
  Forall fin present -> In y present ->
  exists v w, fquantile present 1 = FFin v /\ y = FFin w /\ w <= v.
Proof.
  intros Hf Hy.
  pose proof (sort_f_fin _ Hf) as Hsf. pose proof (sort_f_ordered _ Hf) as Hso.
  apply sort_f_In in Hy.
  destruct (sort_f present) as [|a t] eqn:S; [destruct Hy|].
  rewrite (fquantile_cons _ _ _ _ S). cbv zeta.
  rewrite Qfloor_mult_one, Nat2Z.id.
  replace (Nat.min (List.length t + 1) (List.length t)) with (List.length t) by lia.
  pose proof (ordered_last (a :: t) y Hsf Hso Hy) as Hle.
  change (List.length (a :: t) - 1)%nat with (List.length t - 0)%nat in Hle.
  rewrite Nat.sub_0_r in Hle.
  assert (Hb : fin (nth (List.length t) (a :: t) FNaN)).
  { rewrite Forall_forall in Hsf. apply Hsf, nth_In. cbn [List.length]. lia. }
  apply fin_inv in Hb. destruct Hb as [qb Hb]. rewrite Hb in *.
  destruct (lerp_same qb (inject_Z (Z.of_nat (List.length t)) * 1
                          - inject_Z (Z.of_nat (List.length t)))) as [v [Ev Hv]].
  rewrite Ev.
  assert (Hw : fin y).
  { rewrite Forall_forall in Hsf. now apply Hsf. }
  apply fin_inv in Hw. destruct Hw as [w ->].
  exists v, w. split; [reflexivity | split; [reflexivity|]].
  cbn in Hle. apply Qle_bool_iff in Hle. lra.
Qed.

Lemma present_cells_fin (n : nat) (x : Series) :
  (forall j, (j < n)%nat -> isinf (x j) = false) ->
  Forall fin (filter notna (cells n x)).
Proof.
  intro H. apply Forall_forall. intros y Hy.
  apply filter_In in Hy. destruct Hy as [Hy Hn].
  unfold cells in Hy. apply in_map_iff in Hy. destruct Hy as [j [<- Hj]].
  apply in_seq in Hj. specialize (H j (proj2 Hj)).
  unfold fin. now destruct (x j).
Qed.

(** When [qcut] succeeds on a column without infinite cells, a row of the
    frame has a label exactly when its cell is present. *)
Lemma qcut_label_iff_present (n : nat) (x : Series) (labels : list string)
  (q : nat -> option string) (i : nat) :
  qcut n x labels = Some q -> List.length labels = 4%nat -> (i < n)%nat ->
  (forall j, (j < n)%nat -> isinf (x j) = false) ->
  (q i = None <-> isna (x i) = true).
Proof.
  intros Hq Hl Hi Hinf. unfold qcut in Hq. cbv zeta in Hq.
  destruct (forallb is_finite (qcut_edges (filter notna (cells n x)))
            && increasing (qcut_edges (filter notna (cells n x)))); [|discriminate].
  injection Hq as <-.
  destruct (isna (x i)) eqn:Ena.
  - split; [reflexivity|]. intros _. unfold bucket. now rewrite Ena.
  - split; [|discriminate]. intro Hnone. exfalso.
    pose proof (present_cells_fin n x Hinf) as Hf.
    assert (Hin : In (x i) (filter notna (cells n x))).
    { apply filter_In. split.
      - unfold cells. apply in_map, in_seq. lia.
      - unfold notna. now rewrite Ena. }
    destruct (fquantile_zero_below _ _ Hf Hin) as [v0 [w [E0 [Ew H0]]]].
    destruct (fquantile_one_above _ _ Hf Hin) as [v4 [w' [E4 [Ew' H4]]]].
    rewrite Ew in Ew'. injection Ew' as <-.
    unfold qcut_edges, quartile_points in Hnone. cbn [map] in Hnone.
    rewrite E0, E4, Ew in Hnone.
    unfold bucket, searchsorted_left in Hnone.
    cbn [nth feqb isna orb List.length filter flt] in Hnone.
    destruct labels as [|l0 [|l1 [|l2 [|l3 [|l4 l]]]]]; try discriminate Hl.
    destruct (Qeq_bool w v0) eqn:Eq0; [discriminate Hnone|].
    assert (Hlo : Qlt_bool v0 w = true).
    { unfold Qlt_bool. destruct (Qle_bool w v0) eqn:E; [|reflexivity].
      apply Qle_bool_iff in E.
      assert (Heq : w == v0) by lra. apply Qeq_bool_iff in Heq. congruence. }
    assert (Hhi : Qlt_bool v4 w = false).
    { unfold Qlt_bool. apply Qle_bool_iff in H4. now rewrite H4. }
    rewrite Hlo, Hhi in Hnone.
    destruct (flt (fquantile (filter notna (cells n x)) (1 # 4)) (FFin w)),
      (flt (fquantile (filter notna (cells n x)) (1 # 2)) (FFin w)),
      (flt (fquantile (filter notna (cells n x)) (3 # 4)) (FFin w));
      discriminate Hnone.
Qed.

(** C2, amended.  In both scripts the quartile bucket of a subject is
    computed by equal-frequency binning of the composite index over all
    subjects with a non-missing index, before eligibility is decided.  For a
    run that succeeds: the label of a row is its bucket under the cut points
    of the whole [iri] column; a row of the frame has a label exactly when
    its index is present, eligible or not; and replacing the ages and survey
    weights (cohort script) or the ages and pregnancy answers (harmonization
    script), which changes who is eligible, changes no cut point and no
    label. *)
Theorem quartiles_over_all_subjects (O : RealOps) (df out out' hdf hout hout' : frame)
  (age' w' hage' p' : Series) (q q' hq hq' : nat -> option string) (i j : nat) :
  build_iri_cohort O df = Some (tt, out) ->
  build_iri_cohort O (set_col (set_col df "RIDAGEYR" age') "WTMEC2YR" w')
  = Some (tt, out') ->
  construct_iri O hdf = Some (tt, hout) ->
  construct_iri O (set_col (set_col hdf "RIDAGEYR" hage') "RIDEXPRG" p')
  = Some (tt, hout') ->
  assoc "iri_quartile" (cats out) = Some q ->
  assoc "iri_quartile" (cats out') = Some q' ->
  assoc "iri_quartile" (cats hout) = Some hq ->
  assoc "iri_quartile" (cats hout') = Some hq' ->
  (i < nrows df)%nat -> (j < nrows hdf)%nat ->
  (q i = bucket_label (cut_points (nrows df) everyone (col out "iri"))
           quartile_labels_cohort (col out "iri" i)
   /\ (q i = None <-> isna (col out "iri" i) = true)
   /\ cut_points (nrows df) everyone (col out' "iri")
      = cut_points (nrows df) everyone (col out "iri")
   /\ q' i = q i)
  /\ (hq j = bucket_label (cut_points (nrows hdf) everyone (col hout "iri"))
               quartile_labels_harmonize (col hout "iri" j)
      /\ (hq j = None <-> isna (col hout "iri" j) = true)
      /\ cut_points (nrows hdf) everyone (col hout' "iri")
         = cut_points (nrows hdf) everyone (col hout "iri")
      /\ hq' j = hq j).
Proof.
  intros Hc Hc' Hh Hh' Eq Eq' Ehq Ehq' Hi Hj.
  apply build_iri_cohort_run in Hc, Hc'. apply construct_iri_run in Hh, Hh'.
  destruct (cr_out_quartile _ _ _ Hc) as [q0 [Hq0 Hq0']].
  destruct (cr_out_quartile _ _ _ Hc') as [q1 [Hq1 Hq1']].
  destruct (hr_out_quartile _ _ _ Hh) as [h0 [Hh0 Hh0']].
  destruct (hr_out_quartile _ _ _ Hh') as [h1 [Hh1 Hh1']].
  rewrite Eq in Hq0'. injection Hq0' as <-.
  rewrite Eq' in Hq1'. injection Hq1' as <-.
  rewrite Ehq in Hh0'. injection Hh0' as <-.
  rewrite Ehq' in Hh1'. injection Hh1' as <-.
  unfold col.
  rewrite (get_or_some _ _ _ _ (cr_out_iri _ _ _ Hc)),
    (get_or_some _ _ _ _ (cr_out_iri _ _ _ Hc')),
    (get_or_some _ _ _ _ (hr_out_iri _ _ _ Hh)),
    (get_or_some _ _ _ _ (hr_out_iri _ _ _ Hh')).
  rewrite cohort_iri_ignores_age_weight in *.
  rewrite harm_iri_ignores_age_pregnancy in *.
  change (nrows (set_col (set_col df "RIDAGEYR" age') "WTMEC2YR" w'))
    with (nrows df) in Hq1.
  change (nrows (set_col (set_col hdf "RIDAGEYR" hage') "RIDEXPRG" p'))
    with (nrows hdf) in Hh1.
  split; (split; [|split; [|split; [reflexivity|]]]).
  - apply (qcut_uses_all_cells _ _ _ _ i Hq0).
  - apply (qcut_label_iff_present _ _ _ _ i Hq0 eq_refl Hi).
    intros k Hk. now apply iri_not_inf_cohort.
  - now rewrite (qcut_uses_all_cells _ _ _ _ i Hq0), (qcut_uses_all_cells _ _ _ _ i Hq1).
  - apply (qcut_uses_all_cells _ _ _ _ j Hh0).
  - apply (qcut_label_iff_present _ _ _ _ j Hh0 eq_refl Hj).
    intros k Hk. now apply iri_not_inf_harmonize.
  - now rewrite (qcut_uses_all_cells _ _ _ _ j Hh0), (qcut_uses_all_cells _ _ _ _ j Hh1).
Qed.

(** The [iri_quartile] column of a frame (no label where it is absent). *)
Definition quartile_of (out : frame) : nat -> option string :=
  match assoc "iri_quartile" (cats out) with
  | Some q => q
  | None => fun _ => None
  end.

Definition has_quartile (out : frame) : bool :=
  match assoc "iri_quartile" (cats out) with Some _ => true | None => false end.

Lemma has_quartile_some (out : frame) :
  has_quartile out = true -> assoc "iri_quartile" (cats out) = Some (quartile_of out).
Proof.
  unfold has_quartile, quartile_of.
  destruct (assoc "iri_quartile" (cats out)); [reflexivity | discriminate].
Qed.

(** [cohort_example] with every participant an adult with a survey weight,
    and [harmonize_example] with other ages and pregnancy answers. *)
Definition cohort_example_adults : frame :=
  set_col (set_col cohort_example "RIDAGEYR" (const_series (FFin 30)))
          "WTMEC2YR" (const_series (FFin 2)).

Definition cohort_example_adults_out : frame :=
  frame_of cohort_example_adults (build_iri_cohort approx_ops cohort_example_adults).

Lemma cohort_example_adults_runs :
  build_iri_cohort approx_ops cohort_example_adults
  = Some (tt, cohort_example_adults_out).
Proof. apply succeeds_frame_of. vm_compute. reflexivity. Qed.

Definition harmonize_example_adults : frame :=
  set_col (set_col harmonize_example "RIDAGEYR" (const_series (FFin 30)))
          "RIDEXPRG" (const_series (FFin 2)).

Definition harmonize_example_adults_out : frame :=
  frame_of harmonize_example_adults (construct_iri approx_ops harmonize_example_adults).

Lemma harmonize_example_adults_runs :
  construct_iri approx_ops harmonize_example_adults
  = Some (tt, harmonize_example_adults_out).
Proof. apply succeeds_frame_of. vm_compute. reflexivity. Qed.

Lemma quartiles_over_all_subjects_witness :
  (quartile_of cohort_example_out 4%nat
   = bucket_label (cut_points (nrows cohort_example) everyone
                     (col cohort_example_out "iri"))
       quartile_labels_cohort (col cohort_example_out "iri" 4%nat)
   /\ (quartile_of cohort_example_out 4%nat = None
       <-> isna (col cohort_example_out "iri" 4%nat) = true)
   /\ cut_points (nrows cohort_example) everyone (col cohort_example_adults_out "iri")
      = cut_points (nrows cohort_example) everyone (col cohort_example_out "iri")
   /\ quartile_of cohort_example_adults_out 4%nat = quartile_of cohort_example_out 4%nat)
  /\ (quartile_of harmonize_example_out 4%nat
      = bucket_label (cut_points (nrows harmonize_example) everyone
                        (col harmonize_example_out "iri"))
          quartile_labels_harmonize (col harmonize_example_out "iri" 4%nat)
      /\ (quartile_of harmonize_example_out 4%nat = None
          <-> isna (col harmonize_example_out "iri" 4%nat) = true)
      /\ cut_points (nrows harmonize_example) everyone
           (col harmonize_example_adults_out "iri")
         = cut_points (nrows harmonize_example) everyone
             (col harmonize_example_out "iri")
      /\ quartile_of harmonize_example_adults_out 4%nat
         = quartile_of harmonize_example_out 4%nat).
Proof.
  assert (E1 : has_quartile cohort_example_out = true) by (vm_compute; reflexivity).
  assert (E2 : has_quartile cohort_example_adults_out = true) by (vm_compute; reflexivity).
  assert (E3 : has_quartile harmonize_example_out = true) by (vm_compute; reflexivity).
  assert (E4 : has_quartile harmonize_example_adults_out = true)
    by (vm_compute; reflexivity).
  assert (R1 : (4 < nrows cohort_example)%nat) by (cbn; lia).
  assert (R2 : (4 < nrows harmonize_example)%nat) by (cbn; lia).
  exact (quartiles_over_all_subjects approx_ops
           cohort_example cohort_example_out cohort_example_adults_out
           harmonize_example harmonize_example_out harmonize_example_adults_out
           (const_series (FFin 30)) (const_series (FFin 2))
           (const_series (FFin 30)) (const_series (FFin 2))
           (quartile_of cohort_example_out) (quartile_of cohort_example_adults_out)
           (quartile_of harmonize_example_out)
           (quartile_of harmonize_example_adults_out) 4%nat 4%nat
           cohort_example_runs cohort_example_adults_runs
           harmonize_example_runs harmonize_example_adults_runs
           (has_quartile_some _ E1) (has_quartile_some _ E2)
           (has_quartile_some _ E3) (has_quartile_some _ E4) R1 R2).
Defined.

(* ------------------------------------------------------------------------- *)
(** ** Further derived variables of [scripts/02_harmonize_iri.py] *)

(** [compute_ldl_friedewald(tchol, hdl, trigly)]: the rows with triglycerides
    of 400 or more are set to NaN. *)
Definition compute_ldl_friedewald (tchol hdl trigly : Series) : Series :=
  let ldl := s_sub (s_sub tchol hdl) (s_scalar fdiv trigly (FFin 5)) in
  loc_assign (s_test fge trigly (FFin 400)) nan_series ldl.

(** [define_smoking_status(df)]: the status starts as NaN and is assigned
    under three masks in turn. *)
Definition define_smoking_status (df : frame) : Series :=
  let smoke_100 := get_or df "SMQ020" nan_series in
  let smoke_now := get_or df "SMQ040" nan_series in
  let status := nan_series in
  let status :=
    loc_assign (s_test feqb smoke_100 (FFin 2)) (const_series (FFin 0)) status in
  let status :=
    loc_assign (fun i => feqb (smoke_100 i) (FFin 1) && isin12 (smoke_now i))
               (const_series (FFin 2)) status in
  loc_assign (fun i => feqb (smoke_100 i) (FFin 1) && feqb (smoke_now i) (FFin 3))
             (const_series (FFin 1)) status.

(** The reading columns [compute_mean_bp(df, cycle)] looks for: the
    oscillometric ones when the cycle tag contains "2017". *)
Definition sbp_names (cycle : string) : list string :=
  if contains "2017" cycle
  then ["BPXOSY1"; "BPXOSY2"; "BPXOSY3"]%string
  else ["BPXSY1"; "BPXSY2"; "BPXSY3"; "BPXSY4"]%string.

Definition dbp_names (cycle : string) : list string :=
  if contains "2017" cycle
  then ["BPXODI1"; "BPXODI2"; "BPXODI3"]%string
  else ["BPXDI1"; "BPXDI2"; "BPXDI3"; "BPXDI4"]%string.

(** [df[cols].mean(axis=1) if cols else NaN] over the columns of [names] the
    frame has. *)
Definition mean_of_available (df : frame) (names : list string) : Series :=
  match filter (has_col df) names with
  | [] => nan_series
  | available => mean_axis1 (map (fun c => get_or df c nan_series) available)
  end.

Definition compute_mean_bp (df : frame) (cycle : string) : Series * Series :=
  (mean_of_available df (sbp_names cycle), mean_of_available df (dbp_names cycle)).

(** One term of [compute_physical_activity_met_min]:
    [np.where(screen == 1, mets * days.fillna(0) * minutes.fillna(0), 0)]. *)
Definition met_term (mets : Q) (screen days minutes : fval) : fval :=
  if feqb screen (FFin 1)
  then fmul (fmul (FFin mets) (fillna0 days)) (fillna0 minutes)
  else FFin 0.

(** [compute_physical_activity_met_min(df)]: vigorous activity counts 8 METs,
    moderate activity 4; the weekly total is capped at 10080. *)
Definition compute_physical_activity_met_min (df : frame) : Series :=
  let two := const_series (FFin 2) in
  let zero := const_series (FFin 0) in
  fun i =>
    let vig_work_met := met_term 8 (get_or df "PAQ605" two i)
                          (get_or df "PAQ610" zero i) (get_or df "PAD615" zero i) in
    let mod_work_met := met_term 4 (get_or df "PAQ620" two i)
                          (get_or df "PAQ625" zero i) (get_or df "PAD630" zero i) in
    let vig_rec_met := met_term 8 (get_or df "PAQ650" two i)
                         (get_or df "PAQ655" zero i) (get_or df "PAD660" zero i) in
    let mod_rec_met := met_term 4 (get_or df "PAQ665" two i)
                         (get_or df "PAQ670" zero i) (get_or df "PAD675" zero i) in
    fminimum (fadd (fadd (fadd vig_work_met mod_work_met) vig_rec_met) mod_rec_met)
             (FFin 10080).

(** No two records of a table carry the same key. *)
Fixpoint distinct_keys (l : list MortRecord) : bool :=
  match l with
  | [] => true
  | r :: t =>
      negb (existsb (fun r' => key_eqb (m_SEQN r') (m_SEQN r)) t) && distinct_keys t
  end.

(* ------------------------------------------------------------------------- *)
(** ** Properties of the derived variables *)

(** X1.  The Friedewald estimate is missing when an input is missing and
    when the triglycerides are 400 or more; below 400, on finite inputs, it is
    [TC - HDL - TG / 5]. *)
Theorem ldl_friedewald_cases (tchol hdl trigly : Series) (i : nat) :
  (isna (tchol i) || isna (hdl i) || isna (trigly i) = true ->
   compute_ldl_friedewald tchol hdl trigly i = FNaN)
  /\ (fge (trigly i) (FFin 400) = true ->
      compute_ldl_friedewald tchol hdl trigly i = FNaN)
  /\ (forall tc h tg, tchol i = FFin tc -> hdl i = FFin h -> trigly i = FFin tg ->
      tg < 400 ->
      compute_ldl_friedewald tchol hdl trigly i = FFin (tc - h - tg / 5)).
Proof.
  unfold compute_ldl_friedewald, loc_assign, s_test, s_sub, s_map2, s_scalar, nan_series.
  split; [|split].
  - intro H. destruct (fge (trigly i) (FFin 400)); [reflexivity|].
    destruct (tchol i) as [|[|]|], (hdl i) as [|[|]|], (trigly i) as [|[|]|];
      try discriminate H; reflexivity.
  - now intros ->.
  - intros tc h tg -> -> -> Hlt.
    assert (E : fge (FFin tg) (FFin 400) = false).
    { unfold fge, fle. destruct (Qle_bool 400 tg) eqn:E; [|reflexivity].
      apply Qle_bool_iff in E. lra. }
    rewrite E. reflexivity.
Qed.

Lemma feqb_distinct (x : fval) (a b : Q) :
  Qeq_bool a b = false -> feqb x (FFin a) = true -> feqb x (FFin b) = false.
Proof.
  intros Hab H. destruct x as [| |q]; try discriminate H. cbn in *.
  destruct (Qeq_bool q b) eqn:E; [|reflexivity].
  apply Qeq_bool_iff in H, E.
  assert (Heq : a == b) by (rewrite <- H; exact E).
  apply Qeq_bool_iff in Heq. congruence.
Qed.

(** X2.  The smoking status is 0 exactly for never-smokers ([SMQ020 = 2]),
    2 exactly for current smokers ([SMQ020 = 1] and [SMQ040] 1 or 2), 1
    exactly for former smokers ([SMQ020 = 1] and [SMQ040 = 3]), and missing
    in every other case; the three assignments never overwrite one
    another. *)
Theorem smoking_status_cases (df : frame) (i : nat) :
  let s100 := col df "SMQ020" i in
  let now := col df "SMQ040" i in
  (define_smoking_status df i = FFin 0 <-> feqb s100 (FFin 2) = true)
  /\ (define_smoking_status df i = FFin 2
      <-> feqb s100 (FFin 1) && isin12 now = true)
  /\ (define_smoking_status df i = FFin 1
      <-> feqb s100 (FFin 1) && feqb now (FFin 3) = true)
  /\ (define_smoking_status df i = FNaN
      <-> feqb s100 (FFin 2) || feqb s100 (FFin 1) && (isin12 now || feqb now (FFin 3))
          = false).
Proof.
  cbv zeta. unfold define_smoking_status, col, loc_assign, s_test, isin12.
  set (a := get_or df "SMQ020" nan_series i).
  set (b := get_or df "SMQ040" nan_series i).
  unfold const_series, nan_series.
  destruct (feqb a (FFin 1)) eqn:A1.
  - rewrite (feqb_distinct a 1 2 eq_refl A1).
    destruct (feqb b (FFin 3)) eqn:B3.
    + rewrite (feqb_distinct b 3 1 eq_refl B3), (feqb_distinct b 3 2 eq_refl B3).
      cbn. repeat split; intro H; try discriminate H; reflexivity.
    + destruct (feqb b (FFin 1) || feqb b (FFin 2)); cbn;
        repeat split; intro H; try discriminate H; reflexivity.
  - cbn. destruct (feqb a (FFin 2)); cbn;
      repeat split; intro H; try discriminate H; reflexivity.
Qed.

Lemma fold_fadd_finite (l : list fval) (acc : Q) :
  Forall fin l -> exists s, fold_left fadd l (FFin acc) = FFin s.
Proof.
  revert acc. induction l as [|x t IH]; intros acc H; cbn [fold_left].
  - now eexists.
  - inversion H as [|? ? Hx Ht]; subst.
    apply fin_inv in Hx. destruct Hx as [q ->]. cbn [fadd]. now apply IH.
Qed.

(** The mean of a row without infinite cells is missing exactly when every
    cell is missing. *)
Lemma isna_mean (l : list fval) :
  forallb (fun x => negb (isinf x)) l = true ->
  isna (mean l) = forallb isna l.
Proof.
  intro H. unfold mean, count, nansum.
  assert (Hf : Forall fin (filter notna l)).
  { apply Forall_forall. intros x Hx. apply filter_In in Hx. destruct Hx as [Hx Hn].
    rewrite forallb_forall in H. specialize (H x Hx).
    unfold fin. now destruct x. }
  assert (Hall : forallb isna l = match filter notna l with [] => true | _ => false end).
  { clear. induction l as [|x t IH]; [reflexivity|]. cbn.
    unfold notna at 1. destruct (isna x); cbn; [exact IH | reflexivity]. }
  rewrite Hall.
  destruct (filter notna l) as [|x t] eqn:E; [reflexivity|].
  destruct (fold_fadd_finite (x :: t) 0 Hf) as [s ->].
  cbn [List.length]. unfold fnat, fdiv.
  assert (Hz : Qeq_bool (inject_Z (Z.of_nat (S (List.length t)))) 0 = false).
  { destruct (Qeq_bool _ 0) eqn:Z0; [|reflexivity].
    apply Qeq_bool_iff in Z0. unfold Qeq in Z0. cbn in Z0. lia. }
  now rewrite Hz.
Qed.

Lemma forallb_missing_filter (df : frame) (i : nat) (names : list string) :
  forallb isna (map (fun c => get_or df c nan_series i) (filter (has_col df) names))
  = forallb (missing_at df i) names.
Proof.
  induction names as [|k t IH]; [reflexivity|]. cbn [filter forallb].
  unfold missing_at at 1. destruct (has_col df k) eqn:E; cbn; [|exact IH].
  unfold col. now rewrite IH.
Qed.

Lemma mean_of_available_missing (df : frame) (names : list string) (i : nat) :
  forallb (fun k => negb (isinf (col df k i))) names = true ->
  isna (mean_of_available df names i) = forallb (missing_at df i) names.
Proof.
  intro H. rewrite <- forallb_missing_filter. unfold mean_of_available.
  destruct (filter (has_col df) names) as [|k t] eqn:E; [reflexivity|].
  unfold mean_axis1, row_cells. rewrite map_map. apply isna_mean.
  rewrite forallb_forall in *. intros x Hx. apply in_map_iff in Hx.
  destruct Hx as [c [<- Hc]]. apply (H c).
  rewrite <- E in Hc. apply filter_In in Hc. tauto.
Qed.

(** X3.  On a row without infinite readings the mean systolic and the mean
    diastolic pressure are missing exactly when each reading column of the
    cycle is absent from the frame or missing on that row; a cycle whose tag
    contains "2017" reads the oscillometric columns only. *)
Theorem mean_bp_missing_iff_no_reading (df : frame) (cycle : string) (i : nat) :
  forallb (fun k => negb (isinf (col df k i))) (sbp_names cycle ++ dbp_names cycle)
  = true ->
  isna (fst (compute_mean_bp df cycle) i) = forallb (missing_at df i) (sbp_names cycle)
  /\ isna (snd (compute_mean_bp df cycle) i)
     = forallb (missing_at df i) (dbp_names cycle).
Proof.
  intro H. rewrite forallb_app in H. apply andb_prop in H. destruct H as [Hs Hd].
  split; now apply mean_of_available_missing.
Qed.

(** A frame of the 2017-2020 cycle with one oscillometric reading on row 0
    and none on row 1, and auscultatory columns that are not read. *)
Definition bp_example : frame :=
  mk_frame 2 [("BPXOSY1", [FFin 120; FNaN]); ("BPXOSY2", [FNaN; FNaN]);
              ("BPXODI1", [FFin 70; FNaN]); ("BPXSY1", [FFin 150; FFin 150])]%string.

Lemma mean_bp_missing_iff_no_reading_witness :
  (isna (fst (compute_mean_bp bp_example "2017-2020") 1%nat)
   = forallb (missing_at bp_example 1%nat) (sbp_names "2017-2020")
   /\ isna (snd (compute_mean_bp bp_example "2017-2020") 1%nat)
      = forallb (missing_at bp_example 1%nat) (dbp_names "2017-2020"))
  /\ isna (fst (compute_mean_bp bp_example "2017-2020") 1%nat) = true
  /\ fst (compute_mean_bp bp_example "2017-2020") 0%nat = FFin (120 / 1).
Proof.
  split; [|split; [reflexivity | vm_compute; reflexivity]].
  apply (mean_bp_missing_iff_no_reading bp_example "2017-2020" 1%nat).
  reflexivity.
Defined.

Lemma fillna0_finite (x : fval) : isinf x = false -> exists q, fillna0 x = FFin q.
Proof. destruct x as [| |q]; [now exists 0 | discriminate | now exists q]. Qed.

Lemma met_term_finite (mets : Q) (screen days minutes : fval) :
  isinf days = false -> isinf minutes = false ->
  exists q, met_term mets screen days minutes = FFin q.
Proof.
  intros Hd Hm. unfold met_term.
  destruct (feqb screen (FFin 1)); [|now eexists].
  destruct (fillna0_finite _ Hd) as [d ->], (fillna0_finite _ Hm) as [m ->].
  now eexists.
Qed.

(** The cells [compute_physical_activity_met_min] multiplies. *)
Definition activity_amounts : list string :=
  ["PAQ610"; "PAD615"; "PAQ625"; "PAD630"; "PAQ655"; "PAD660"; "PAQ670"; "PAD675"]%string.

Definition activity_screens : list string :=
  ["PAQ605"; "PAQ620"; "PAQ650"; "PAQ665"]%string.

(** X4.  The weekly MET-minutes are never missing and never above 10080 on
    a row whose day and minute counts are not infinite (a missing count
    counts as 0), and they are 0 when no screening question is answered 1, a
    missing answer or an absent column included. *)
Theorem met_minutes_capped (df : frame) (i : nat) :
  forallb (fun k => negb (isinf (get_or df k (const_series (FFin 0)) i)))
          activity_amounts = true ->
  (exists v, compute_physical_activity_met_min df i = FFin v /\ v <= 10080)
  /\ (forallb (fun k => negb (feqb (get_or df k (const_series (FFin 2)) i) (FFin 1)))
              activity_screens = true ->
      feq (compute_physical_activity_met_min df i) (FFin 0)).
Proof.
  intro H. unfold activity_amounts in H. cbn [forallb] in H.
  repeat (apply andb_prop in H; destruct H as [?H H]).
  repeat match goal with
         | X : negb (isinf _) = true |- _ => apply negb_true_iff in X
         end.
  unfold compute_physical_activity_met_min. cbv zeta. split.
  - destruct (met_term_finite 8 (get_or df "PAQ605" (const_series (FFin 2)) i) _ _ H0 H1)
      as [a ->].
    destruct (met_term_finite 4 (get_or df "PAQ620" (const_series (FFin 2)) i) _ _ H2 H3)
      as [b ->].
    destruct (met_term_finite 8 (get_or df "PAQ650" (const_series (FFin 2)) i) _ _ H4 H5)
      as [c ->].
    destruct (met_term_finite 4 (get_or df "PAQ665" (const_series (FFin 2)) i) _ _ H6 H7)
      as [d ->].
    cbn [fadd]. unfold fminimum, fle.
    destruct (Qle_bool (a + b + c + d) 10080) eqn:E.
    + eexists. split; [reflexivity|]. now apply Qle_bool_iff.
    + eexists. split; [reflexivity|]. lra.
  - intro Hs. unfold activity_screens in Hs. cbn [forallb] in Hs.
    repeat (apply andb_prop in Hs; destruct Hs as [?S Hs]).
    repeat match goal with
           | X : negb (feqb _ _) = true |- _ => apply negb_true_iff in X
           end.
    unfold met_term. rewrite S, S0, S1, S2. cbn. reflexivity.
Qed.

(** A frame with one hour of vigorous work on seven days (3360 MET-minutes)
    on row 0 and an implausible amount on row 1. *)
Definition activity_example : frame :=
  mk_frame 2 [("PAQ605", [FFin 1; FFin 1]); ("PAQ610", [FFin 7; FFin 7]);
              ("PAD615", [FFin 60; FFin 600]); ("PAQ620", [FNaN; FFin 2])]%string.

Lemma met_minutes_capped_witness :
  (exists v, compute_physical_activity_met_min activity_example 1%nat = FFin v
             /\ v <= 10080)
  /\ compute_physical_activity_met_min activity_example 1%nat = FFin 10080
  /\ feq (compute_physical_activity_met_min activity_example 0%nat) (FFin 3360).
Proof.
  split; [|split; [vm_compute; reflexivity | vm_compute; reflexivity]].
  apply (met_minutes_capped activity_example 1%nat). reflexivity.
Defined.

(* ------------------------------------------------------------------------- *)
(** ** Properties of the mortality linkage *)

(** X5.  The cause-specific outcomes of a record are 0/1 flags, nested as the
    causes are: a heart-disease death is a cardiovascular death, a
    cardiovascular death is a death, a cancer death is a death and not a
    cardiovascular one; a record whose status is not 1 (missing included) has
    all four flags 0. *)
Theorem cause_specific_flags_nested (r : MortRecord) :
  let o := define_cause_specific_mortality r in
  (is_flag (o_mort_all o) /\ is_flag (o_mort_cv o) /\ is_flag (o_mort_heart o)
   /\ is_flag (o_mort_cancer o))
  /\ (o_mort_heart o = FFin 1 -> o_mort_cv o = FFin 1)
  /\ (o_mort_cv o = FFin 1 -> o_mort_all o = FFin 1)
  /\ (o_mort_cancer o = FFin 1 -> o_mort_all o = FFin 1 /\ o_mort_cv o = FFin 0)
  /\ (feqb (mortstat r) (FFin 1) = false ->
      o_mort_all o = FFin 0 /\ o_mort_cv o = FFin 0 /\ o_mort_heart o = FFin 0
      /\ o_mort_cancer o = FFin 0).
Proof.
  cbv zeta. unfold define_cause_specific_mortality. cbn [o_mort_all o_mort_cv
    o_mort_heart o_mort_cancer].
  split; [repeat split; apply of_bool_is_flag|].
  destruct (feqb (mortstat r) (FFin 1)); cbn [andb].
  - destruct (feqb (ucod_leading r) (FFin 2)) eqn:U2.
    + rewrite (feqb_distinct _ 2 1 eq_refl U2), (feqb_distinct _ 2 5 eq_refl U2).
      cbn. repeat split; intros; first [reflexivity | congruence].
    + destruct (feqb (ucod_leading r) (FFin 1)), (feqb (ucod_leading r) (FFin 5));
        cbn; repeat split; intros; first [reflexivity | congruence].
  - cbn. repeat split; intros; first [reflexivity | congruence].
Qed.

Lemma key_eqb_refl (x : fval) : key_eqb x x = true.
Proof.
  destruct x as [|s|q]; cbn; [reflexivity | now destruct s | apply Qeq_bool_iff; reflexivity].
Qed.

(** Two keys equal to a third are equal. *)
Lemma key_eqb_common (c a b : fval) :
  key_eqb c a = true -> key_eqb c b = true -> key_eqb b a = true.
Proof.
  destruct c as [|s|q], a as [|s1|q1], b as [|s2|q2]; cbn; try discriminate;
    try reflexivity.
  - destruct s, s1, s2; try discriminate; reflexivity.
  - rewrite !Qeq_bool_iff. intros H1 H2. now rewrite <- H1, <- H2.
Qed.

Lemma drop_duplicates_from_unseen (seen : list fval) (l : list MortRecord) (r : MortRecord) :
  In r (drop_duplicates_from seen l) ->
  In r l /\ existsb (key_eqb (m_SEQN r)) seen = false.
Proof.
  revert seen. induction l as [|a t IH]; intros seen H; cbn in H; [destruct H|].
  destruct (existsb (key_eqb (m_SEQN a)) seen) eqn:E.
  - apply IH in H. destruct H as [H1 H2]. split; [now right | exact H2].
  - destruct H as [<-|H]; [split; [now left | exact E]|].
    apply IH in H. destruct H as [H1 H2]. split; [now right|].
    cbn in H2. apply orb_false_iff in H2. tauto.
Qed.

Lemma drop_duplicates_from_distinct (seen : list fval) (l : list MortRecord) :
  distinct_keys (drop_duplicates_from seen l) = true.
Proof.
  revert seen. induction l as [|a t IH]; intro seen; cbn; [reflexivity|].
  destruct (existsb (key_eqb (m_SEQN a)) seen) eqn:E; [apply IH|].
  cbn. rewrite IH, andb_true_r. apply negb_true_iff.
  destruct (existsb (fun r' => key_eqb (m_SEQN r') (m_SEQN a)) _) eqn:X; [|reflexivity].
  apply existsb_exists in X. destruct X as [r' [Hin Hk]].
  apply drop_duplicates_from_unseen in Hin. destruct Hin as [_ Hu].
  cbn in Hu. apply orb_false_iff in Hu. destruct Hu as [Hu _]. congruence.
Qed.

Lemma drop_duplicates_from_covers (seen : list fval) (l : list MortRecord) (r : MortRecord) :
  In r l ->
  existsb (key_eqb (m_SEQN r)) seen = true
  \/ existsb (fun r' => key_eqb (m_SEQN r) (m_SEQN r')) (drop_duplicates_from seen l)
     = true.
Proof.
  revert seen. induction l as [|a t IH]; intros seen H; [destruct H|]. cbn.
  destruct H as [->|H].
  - destruct (existsb (key_eqb (m_SEQN r)) seen) eqn:E; [now left|].
    right. cbn. now rewrite key_eqb_refl.
  - destruct (existsb (key_eqb (m_SEQN a)) seen) eqn:E.
    + now apply IH.
    + destruct (IH (m_SEQN a :: seen) H) as [X|X].
      * cbn in X. apply orb_true_iff in X. destruct X as [X|X]; [|now left].
        right. cbn. now rewrite X.
      * right. cbn. rewrite X. apply orb_true_r.
Qed.

(** X6.  [drop_duplicates(subset=['SEQN'])] returns records of the table
    only, no two of them with the same identifier, and every identifier of
    the table is still there. *)
Theorem drop_duplicates_one_per_key (l : list MortRecord) :
  distinct_keys (drop_duplicates l) = true
  /\ (forall r, In r (drop_duplicates l) -> In r l)
  /\ (forall r, In r l ->
      existsb (fun r' => key_eqb (m_SEQN r) (m_SEQN r')) (drop_duplicates l) = true).
Proof.
  unfold drop_duplicates. split; [apply drop_duplicates_from_distinct|]. split.
  - intros r H. now apply drop_duplicates_from_unseen in H.
  - intros r H. destruct (drop_duplicates_from_covers [] l r H) as [X|X];
      [discriminate X | exact X].
Qed.

(** In a table without repeated keys at most one record carries a given
    key. *)
Lemma distinct_keys_one_match (k : fval) (l : list MortRecord) :
  distinct_keys l = true ->
  (List.length (filter (fun r => key_eqb k (m_SEQN r)) l) <= 1)%nat.
Proof.
  induction l as [|a t IH]; intro H; cbn; [lia|].
  cbn in H. apply andb_prop in H. destruct H as [Ha Ht].
  destruct (key_eqb k (m_SEQN a)) eqn:E; [|now apply IH].
  cbn. assert (Hnone : filter (fun r => key_eqb k (m_SEQN r)) t = []).
  { destruct (filter _ t) as [|b t'] eqn:F; [reflexivity|]. exfalso.
    assert (Hb : In b (filter (fun r => key_eqb k (m_SEQN r)) t))
      by (rewrite F; now left).
    apply filter_In in Hb. destruct Hb as [Hin Hk].
    apply negb_true_iff in Ha.
    assert (X : existsb (fun r' => key_eqb (m_SEQN r') (m_SEQN a)) t = true).
    { apply existsb_exists. exists b. split; [exact Hin|].
      now apply (key_eqb_common k). }
    congruence. }
  rewrite Hnone. cbn. lia.
Qed.

Lemma distinct_keys_map_matches (c : CohortRow) (l : list MortRecord) :
  List.length (matches c (map define_cause_specific_mortality l))
  = List.length (filter (fun r => key_eqb (SEQN c) (m_SEQN r)) l).
Proof.
  unfold matches. induction l as [|a t IH]; [reflexivity|]. cbn.
  destruct (key_eqb (SEQN c) (m_SEQN a)); cbn; now rewrite IH.
Qed.

Lemma link_row_single (l : list MortRecord) (c : CohortRow) :
  distinct_keys l = true ->
  exists r, link_row (map define_cause_specific_mortality l) c = [r]
            /\ l_SEQN r = SEQN c /\ l_cycle r = cycle c.
Proof.
  intro H. pose proof (distinct_keys_one_match (SEQN c) l H) as Hle.
  rewrite <- distinct_keys_map_matches in Hle. unfold link_row.
  destruct (matches c (map define_cause_specific_mortality l)) as [|o [|o' t]].
  - eexists. split; [reflexivity|]. split; reflexivity.
  - eexists. split; [reflexivity|]. split; reflexivity.
  - cbn in Hle. lia.
Qed.

(** X7.  The linkage neither drops nor repeats a cohort row: after the
    de-duplication of the mortality table the left merge returns the cohort
    rows in their order, each once, with its identifier and cycle. *)
Theorem link_mortality_keeps_rows (df : list CohortRow) (all_mort : list (list MortRecord)) :
  map l_SEQN (link_mortality df all_mort) = map SEQN df
  /\ map l_cycle (link_mortality df all_mort) = map cycle df
  /\ List.length (link_mortality df all_mort) = List.length df.
Proof.
  unfold link_mortality. cbv zeta.
  pose proof (drop_duplicates_from_distinct [] (concat all_mort)) as Hd.
  fold (drop_duplicates (concat all_mort)) in Hd.
  induction df as [|c t IH]; [repeat split|]. cbn [flat_map map List.length].
  destruct (link_row_single _ c Hd) as [r [-> [E1 E2]]].
  destruct IH as [I1 [I2 I3]]. cbn. now rewrite I1, I2, I3, E1, E2.
Qed.

Lemma isna_fillna0 (x : fval) : isna (fillna0 x) = false.
Proof. now destruct x. Qed.

(** X8.  [main] of the linkage script: when no mortality file yields a record
    every cohort row gets missing outcomes and a missing follow-up; when one
    does, the status and cause columns of every linked row are filled, never
    missing. *)
Theorem link_main_branches (df : list CohortRow) (mort_files : list (list MortRecord)) :
  (forallb (fun t => Nat.eqb (List.length t) 0) mort_files = true ->
   link_main df mort_files = map placeholder_row df)
  /\ (forallb (fun t => Nat.eqb (List.length t) 0) mort_files = false ->
      forall r, In r (link_main df mort_files) ->
      isna (l_mortstat r) = false /\ isna (l_mort_all r) = false
      /\ isna (l_mort_cv r) = false /\ isna (l_mort_heart r) = false
      /\ isna (l_mort_cancer r) = false).
Proof.
  unfold link_main. cbv zeta. split.
  - intro H.
    assert (E : filter (fun t : list MortRecord => Nat.ltb 0 (List.length t)) mort_files = []).
    { induction mort_files as [|t ts IH]; [reflexivity|]. cbn in *.
      apply andb_prop in H. destruct H as [H1 H2].
      destruct t; [now apply IH | discriminate H1]. }
    now rewrite E.
  - intros H r Hr.
    destruct (filter (fun t : list MortRecord => Nat.ltb 0 (List.length t)) mort_files)
      as [|t ts] eqn:E.
    + exfalso. clear Hr. induction mort_files as [|t ts IH]; [discriminate H|].
      cbn in *. destruct t; cbn in *; [now apply IH | discriminate E].
    + unfold link_mortality in Hr. cbv zeta in Hr.
      apply in_flat_map in Hr. destruct Hr as [c [_ Hr]].
      unfold link_row in Hr.
      destruct (matches c _) as [|o os].
      * destruct Hr as [<-|[]]. cbn. repeat split.
      * apply in_map_iff in Hr. destruct Hr as [o' [<- _]].
        cbn. repeat split; apply isna_fillna0.
Qed.

(* ------------------------------------------------------------------------- *)
(** ** Properties of the component functions *)

(** A cleaned grip reading is missing or positive. *)
Definition grip_clean (x : fval) : fval :=
  let y := replace_zero_nan x in if flt y (FFin 0) then FNaN else y.

Lemma grip_clean_positive (x : fval) :
  isna (grip_clean x) = true \/ flt (FFin 0) (grip_clean x) = true.
Proof.
  unfold grip_clean, replace_zero_nan. cbv zeta.
  destruct x as [|s|q]; cbn; [now left | destruct s; cbn; auto |].
  destruct (Qeq_bool q 0) eqn:E0; cbn; [now left|].
  unfold Qlt_bool. destruct (Qle_bool 0 q) eqn:E1; cbn; [|now left].
  right. cbn. unfold Qlt_bool. destruct (Qle_bool q 0) eqn:E2; [|reflexivity].
  apply Qle_bool_iff in E1, E2. assert (H : q == 0) by lra.
  apply Qeq_bool_iff in H. congruence.
Qed.

Lemma fmaximum_positive (a b : fval) :
  flt (FFin 0) a = true -> flt (FFin 0) b = true -> flt (FFin 0) (fmaximum a b) = true.
Proof.
  intros Ha Hb. unfold fmaximum.
  destruct a as [|s|p], b as [|t|q]; try discriminate; destruct (fle _ _); assumption.
Qed.

Lemma fold_fmaximum_positive (l : list fval) (acc : fval) :
  flt (FFin 0) acc = true -> Forall (fun x => flt (FFin 0) x = true) l ->
  flt (FFin 0) (fold_left fmaximum l acc) = true.
Proof.
  revert acc. induction l as [|x t IH]; intros acc Ha Hl; [exact Ha|].
  inversion Hl; subst. cbn. apply IH; [now apply fmaximum_positive | assumption].
Qed.

Lemma nanmax_positive (l : list fval) :
  Forall (fun x => isna x = true \/ flt (FFin 0) x = true) l ->
  isna (nanmax l) = true \/ flt (FFin 0) (nanmax l) = true.
Proof.
  intro H. unfold nanmax.
  assert (Hp : Forall (fun x => flt (FFin 0) x = true) (filter notna l)).
  { apply Forall_forall. intros x Hx. apply filter_In in Hx. destruct Hx as [Hx Hn].
    rewrite Forall_forall in H. destruct (H x Hx) as [N|P]; [|exact P].
    unfold notna in Hn. rewrite N in Hn. discriminate Hn. }
  destruct (filter notna l) as [|x t]; [now left|].
  right. inversion Hp; subst. now apply fold_fmaximum_positive.
Qed.

(** X9.  The maximum grip strength of a row is missing or strictly
    positive: a reading of 0 or below never is the result, and when every
    reading of the row is 0, negative or missing the result is missing. *)
Theorem max_grip_missing_or_positive (df : frame) (i : nat) :
  (isna (compute_max_grip_strength df i) = true
   \/ flt (FFin 0) (compute_max_grip_strength df i) = true)
  /\ (forallb (fun k => isna (col df k i) || fle (col df k i) (FFin 0)) grip_cols = true ->
      compute_max_grip_strength df i = FNaN).
Proof.
  unfold compute_max_grip_strength. cbv zeta. fold grip_clean. split.
  - destruct (filter (has_col df) grip_cols) as [|k t]; [now left|].
    unfold max_axis1, row_cells. rewrite map_map. apply nanmax_positive.
    apply Forall_forall. intros x Hx. apply in_map_iff in Hx.
    destruct Hx as [c [<- _]]. unfold s_map. apply grip_clean_positive.
  - intro H.
    destruct (filter (has_col df) grip_cols) as [|k t] eqn:E; [reflexivity|].
    unfold max_axis1, row_cells, nanmax. rewrite map_map.
    assert (F : filter notna
                  (map (fun c => s_map grip_clean (get_or df c nan_series) i) (k :: t)) = []).
    { rewrite <- E. clear E. rewrite forallb_forall in H.
      assert (G : forall c, In c (filter (has_col df) grip_cols) ->
                  notna (s_map grip_clean (get_or df c nan_series) i) = false).
      { intros c Hc. apply filter_In in Hc. destruct Hc as [Hc _].
        specialize (H c Hc). unfold col in H. unfold s_map, notna.
        apply negb_false_iff.
        destruct (get_or df c nan_series i) as [|s|q]; [reflexivity | |].
        - destruct s; [reflexivity | discriminate H].
        - cbn in H. unfold grip_clean, replace_zero_nan. cbv zeta. cbn.
          destruct (Qeq_bool q 0) eqn:E0; [reflexivity|]. cbn.
          unfold Qlt_bool. destruct (Qle_bool 0 q) eqn:E1; [|reflexivity].
          apply Qle_bool_iff in H, E1. assert (Hq : q == 0) by lra.
          apply Qeq_bool_iff in Hq. congruence. }
      induction (filter (has_col df) grip_cols) as [|c cs IH]; [reflexivity|].
      cbn. rewrite (G c (or_introl eq_refl)). apply IH.
      intros c' Hc'. apply G. now right. }
    now rewrite F.
Qed.

(** X10.  A missing creatinine or a missing age gives a missing estimate in
    both implementations, whatever the sex code. *)
Theorem egfr_missing_input (O : RealOps) (scr age sex : Series) (i : nat) :
  isna (scr i) || isna (age i) = true ->
  calculate_egfr_ckdepi2021 O scr age sex i = FNaN
  /\ compute_egfr_ckdepi_2021 O scr age sex i = FNaN.
Proof.
  intro H.
  assert (Hage : isna (age i) = true -> fpow O (FFin (9938 # 10000)) (age i) = FNaN).
  { destruct (age i); try discriminate. reflexivity. }
  assert (Hmul : forall x y, fmul (fmul x FNaN) y = FNaN).
  { intros x y. destruct x; reflexivity. }
  assert (Hscr : forall k a, isna (scr i) = true -> Qeq_bool k 0 = false ->
            Qeq_bool a 0 = false ->
            fpow O (fminimum (fdiv (scr i) (FFin k)) (FFin 1)) (FFin a) = FNaN).
  { intros k a Hs _ Ha. destruct (scr i); try discriminate Hs. cbn. now rewrite Ha. }
  unfold calculate_egfr_ckdepi2021, compute_egfr_ckdepi_2021, loc_assign, s_test,
    nan_series. cbv zeta.
  apply orb_true_iff in H. destruct H as [Hs|Ha].
  - destruct (feqb (sex i) (FFin 2)), (feqb (sex i) (FFin 1));
      rewrite ?(Hscr (7 # 10) (- (241 # 1000)) Hs eq_refl eq_refl),
              ?(Hscr (9 # 10) (- (302 # 1000)) Hs eq_refl eq_refl);
      split; reflexivity.
  - rewrite (Hage Ha).
    destruct (feqb (sex i) (FFin 2)), (feqb (sex i) (FFin 1));
      rewrite ?Hmul; split; try reflexivity;
      match goal with |- fmul ?x FNaN = FNaN => destruct x; reflexivity end.
Qed.

Lemma egfr_missing_input_witness :
  calculate_egfr_ckdepi2021 approx_ops (const_series FNaN) (const_series (FFin 50))
    (const_series (FFin 1)) 0%nat = FNaN
  /\ compute_egfr_ckdepi_2021 approx_ops (const_series FNaN) (const_series (FFin 50))
       (const_series (FFin 1)) 0%nat = FNaN.
Proof.
  apply (egfr_missing_input approx_ops (const_series FNaN) (const_series (FFin 50))
           (const_series (FFin 1)) 0%nat).
  reflexivity.
Defined.

(* ------------------------------------------------------------------------- *)
(** ** Properties of whole runs *)

(** X11.  The runs raise [KeyError] on a frame that lacks a column they
    index directly: age, sex, PSU or stratum for the cohort script, sex for
    the harmonization script. *)
Theorem runs_require_columns (O : RealOps) (df : frame) :
  (forallb (has_col df) ["RIDAGEYR"; "RIAGENDR"; "SDMVPSU"; "SDMVSTRA"]%string = false ->
   build_iri_cohort O df = None)
  /\ (has_col df "RIAGENDR" = false -> construct_iri O df = None).
Proof.
  split.
  - intro H. destruct (build_iri_cohort O df) as [[[] out]|] eqn:E; [|reflexivity].
    apply build_iri_cohort_run in E. cbn [forallb] in H.
    rewrite (cr_age _ _ _ E), (cr_sex _ _ _ E), (cr_psu _ _ _ E), (cr_strata _ _ _ E) in H.
    discriminate H.
  - intro H. destruct (construct_iri O df) as [[[] out]|] eqn:E; [|reflexivity].
    apply construct_iri_run in E. rewrite (hr_sex _ _ _ E) in H. discriminate H.
Qed.




Lemma qcut_needs_present_cell (n : nat) (x : Series) (labels : list string)
  (q : nat -> option string) :
  qcut n x labels = Some q -> exists i, (i < n)%nat /\ isna (x i) = false.
Proof.
  intro H. unfold qcut in H. cbv zeta in H.
  destruct (filter notna (cells n x)) as [|y t] eqn:E; [discriminate H|].
  assert (Hy : In y (filter notna (cells n x))) by (rewrite E; now left).
  apply filter_In in Hy. destruct Hy as [Hy Hn].
  unfold cells in Hy. apply in_map_iff in Hy. destruct Hy as [i [<- Hi]].
  apply in_seq in Hi. exists i. split; [lia|].
  unfold notna in Hn. now apply negb_true_iff in Hn.
Qed.

(** X13.  A run that succeeds has a subject with a composite index: on a
    frame where the index is missing on every row, binning raises and the run
    returns nothing. *)
Theorem run_has_an_index (O : RealOps) (df out hdf hout : frame) :
  build_iri_cohort O df = Some (tt, out) ->
  construct_iri O hdf = Some (tt, hout) ->
  (exists i, (i < nrows df)%nat /\ isna (col out "iri" i) = false)
  /\ (exists j, (j < nrows hdf)%nat /\ isna (col hout "iri" j) = false).
Proof.
  intros Hc Hh. apply build_iri_cohort_run in Hc. apply construct_iri_run in Hh.
  destruct (cr_out_quartile _ _ _ Hc) as [q [Hq _]].
  destruct (hr_out_quartile _ _ _ Hh) as [hq [Hhq _]].
  unfold col.
  rewrite (get_or_some _ _ _ _ (cr_out_iri _ _ _ Hc)),
    (get_or_some _ _ _ _ (hr_out_iri _ _ _ Hh)).
  split; eapply qcut_needs_present_cell; eassumption.
Qed.

Lemma run_has_an_index_witness :
  (exists i, (i < nrows cohort_example)%nat /\ isna (col cohort_example_out "iri" i) = false)
  /\ (exists j, (j < nrows harmonize_example)%nat
                /\ isna (col harmonize_example_out "iri" j) = false).
Proof.
  exact (run_has_an_index approx_ops cohort_example cohort_example_out
           harmonize_example harmonize_example_out
           cohort_example_runs harmonize_example_runs).
Defined.

(** X14.  [apply_eligibility_criteria] returns exactly on the frames that
    have the five columns it indexes; on any other frame it raises
    [KeyError]. *)
Theorem eligibility_runs_iff_columns (df : frame) :
  (exists out, apply_eligibility_criteria df = Some (tt, out))
  <-> forallb (has_col df) ["age"; "pregnant"; "hscrp"; "albumin"; "grip_max"]%string
      = true.
Proof.
  split.
  - intros [out H]. apply apply_eligibility_criteria_run in H. cbn [forallb].
    now rewrite (er_age _ _ H), (er_pregnant _ _ H), (er_hscrp _ _ H),
      (er_albumin _ _ H), (er_grip _ _ H).
  - intro H. cbn [forallb] in H.
    repeat (apply andb_prop in H; destruct H as [?H H]).
    now apply apply_eligibility_criteria_total.
Qed.

Lemma flt_fle_trans (b : fval) (x y : Q) :
  flt b (FFin x) = true -> x <= y -> flt b (FFin y) = true.
Proof.
  destruct b as [|s|q]; cbn; try discriminate; [tauto|].
  unfold Qlt_bool. intros H Hxy.
  destruct (Qle_bool x q) eqn:E; [discriminate H|].
  destruct (Qle_bool y q) eqn:E'; [|reflexivity].
  apply Qle_bool_iff in E'.
  assert (X : x <= q) by lra. apply Qle_bool_iff in X. congruence.
Qed.

Lemma searchsorted_left_mono (bins : list fval) (x y : Q) :
  x <= y ->
  (searchsorted_left bins (FFin x) <= searchsorted_left bins (FFin y))%nat.
Proof.
  intro H. unfold searchsorted_left.
  induction bins as [|b t IH]; [cbn; lia|]. cbn.
  destruct (flt b (FFin x)) eqn:E.
  - rewrite (flt_fle_trans b x y E H). cbn. lia.
  - destruct (flt b (FFin y)); cbn; lia.
Qed.

(** No edge of an increasing chain of finite edges lies strictly under a
    value that is at most the first edge. *)
Lemma searchsorted_left_below (bins : list fval) (e0 x : Q) :
  increasing (FFin e0 :: bins) = true -> forallb is_finite bins = true ->
  x <= e0 -> searchsorted_left (FFin e0 :: bins) (FFin x) = 0%nat.
Proof.
  revert e0. induction bins as [|b t IH]; intros e0 Hinc Hfin Hx.
  - unfold searchsorted_left. cbn. unfold Qlt_bool.
    apply Qle_bool_iff in Hx. now rewrite Hx.
  - cbn [forallb] in Hfin. apply andb_prop in Hfin. destruct Hfin as [Hb Hfin].
    destruct b as [| |q]; try discriminate Hb.
    cbn [increasing] in Hinc. apply andb_prop in Hinc. destruct Hinc as [Hlt Hinc].
    assert (Hq : x <= q).
    { cbn in Hlt. unfold Qlt_bool in Hlt.
      destruct (Qle_bool q e0) eqn:E; [discriminate Hlt|].
      destruct (Qlt_le_dec e0 q) as [L|L]; [lra|].
      apply Qle_bool_iff in L. congruence. }
    specialize (IH q Hinc Hfin Hq).
    unfold searchsorted_left in *. cbn [filter] in *.
    assert (E0 : flt (FFin e0) (FFin x) = false).
    { cbn. unfold Qlt_bool. apply Qle_bool_iff in Hx. now rewrite Hx. }
    rewrite E0. exact IH.
Qed.

(** Binning keeps the order of the values. *)
Lemma bucket_monotone (e0 : Q) (bins : list fval) (x y : Q) (a b : nat) :
  increasing (FFin e0 :: bins) = true -> forallb is_finite bins = true ->
  x <= y ->
  bucket (FFin e0 :: bins) (FFin x) = Some a ->
  bucket (FFin e0 :: bins) (FFin y) = Some b ->
  (a <= b)%nat.
Proof.
  intros Hinc Hfin Hxy Hx Hy. unfold bucket in Hx, Hy.
  cbn [nth isna orb feqb] in Hx, Hy.
  pose proof (searchsorted_left_mono (FFin e0 :: bins) x y Hxy) as Hm.
  match type of Hx with
  | (if ?c then _ else _) = _ => destruct c eqn:Cx; [discriminate Hx|]
  end.
  match type of Hy with
  | (if ?c then _ else _) = _ => destruct c eqn:Cy; [discriminate Hy|]
  end.
  injection Hx as <-. injection Hy as <-.
  apply orb_false_iff in Cx, Cy. destruct Cx as [Cx _], Cy as [Cy _].
  apply Nat.eqb_neq in Cx, Cy.
  destruct (Qeq_bool x e0) eqn:Ex, (Qeq_bool y e0) eqn:Ey; try lia.
  apply Qeq_bool_iff in Ey.
  assert (Hle : x <= e0) by lra.
  rewrite (searchsorted_left_below bins e0 x Hinc Hfin Hle) in Cx. lia.
Qed.

Lemma qcut_buckets_monotone (n : nat) (s : Series) (labels : list string)
  (q : nat -> option string) (x y : Q) (a b : nat) :
  qcut n s labels = Some q -> x <= y ->
  bucket (cut_points n everyone s) (FFin x) = Some a ->
  bucket (cut_points n everyone s) (FFin y) = Some b ->
  (a <= b)%nat.
Proof.
  unfold qcut, cut_points. rewrite loc_cells_everyone. cbv zeta.
  destruct (forallb is_finite (qcut_edges (filter notna (cells n s)))
            && increasing (qcut_edges (filter notna (cells n s)))) eqn:E;
    [|discriminate].
  intros _ Hxy Hx Hy. apply andb_prop in E. destruct E as [Hfin Hinc].
  unfold qcut_edges, quartile_points in *. cbn [map] in *.
  cbn [forallb] in Hfin. apply andb_prop in Hfin. destruct Hfin as [H0 Hfin].
  destruct (fquantile (filter notna (cells n s)) 0) as [| |e0]; try discriminate H0.
  exact (bucket_monotone e0 _ x y a b Hinc Hfin Hxy Hx Hy).
Qed.

(** X15.  The quartile buckets of the cohort script are ordered as the
    index is: of two subjects of a run, the one with the lower composite
    index never lands in a higher bucket. *)
Theorem cohort_quartiles_ordered (O : RealOps) (df out : frame) (i j a b : nat) :
  build_iri_cohort O df = Some (tt, out) ->
  (i < nrows df)%nat -> (j < nrows df)%nat ->
  fle (col out "iri" i) (col out "iri" j) = true ->
  bucket (cut_points (nrows df) everyone (col out "iri")) (col out "iri" i) = Some a ->
  bucket (cut_points (nrows df) everyone (col out "iri")) (col out "iri" j) = Some b ->
  (a <= b)%nat.
Proof.
  intros Hc Hi Hj. apply build_iri_cohort_run in Hc.
  destruct (cr_out_quartile _ _ _ Hc) as [q [Hq _]].
  unfold col. rewrite (get_or_some _ _ _ _ (cr_out_iri _ _ _ Hc)).
  pose proof (iri_not_inf_cohort O df i Hi) as Ni.
  pose proof (iri_not_inf_cohort O df j Hj) as Nj.
  destruct (cohort_iri O df i) as [| |x]; try discriminate.
  destruct (cohort_iri O df j) as [| |y]; try discriminate.
  cbn [fle]. intro Hle. apply Qle_bool_iff in Hle.
  now apply (qcut_buckets_monotone _ _ _ q x y a b Hq).
Qed.

Lemma cohort_quartiles_ordered_witness :
  bucket (cut_points (nrows cohort_example) everyone (col cohort_example_out "iri"))
    (col cohort_example_out "iri" 3%nat) = Some 0%nat
  /\ bucket (cut_points (nrows cohort_example) everyone (col cohort_example_out "iri"))
       (col cohort_example_out "iri" 1%nat) = Some 3%nat
  /\ (0 <= 3)%nat.
Proof.
  assert (A : bucket (cut_points (nrows cohort_example) everyone
                        (col cohort_example_out "iri"))
                (col cohort_example_out "iri" 3%nat) = Some 0%nat)
    by (vm_compute; reflexivity).
  assert (B : bucket (cut_points (nrows cohort_example) everyone
                        (col cohort_example_out "iri"))
                (col cohort_example_out "iri" 1%nat) = Some 3%nat)
    by (vm_compute; reflexivity).
  split; [exact A | split; [exact B|]].
  apply (cohort_quartiles_ordered approx_ops cohort_example cohort_example_out
           3%nat 1%nat 0%nat 3%nat cohort_example_runs);
    [cbn; lia | cbn; lia | vm_compute; reflexivity | exact A | exact B].
Defined.

(** X16.  The same for the harmonization script. *)
Theorem harmonize_quartiles_ordered (O : RealOps) (df out : frame) (i j a b : nat) :
  construct_iri O df = Some (tt, out) ->
  (i < nrows df)%nat -> (j < nrows df)%nat ->
  fle (col out "iri" i) (col out "iri" j) = true ->
  bucket (cut_points (nrows df) everyone (col out "iri")) (col out "iri" i) = Some a ->
  bucket (cut_points (nrows df) everyone (col out "iri")) (col out "iri" j) = Some b ->
  (a <= b)%nat.
Proof.
  intros Hc Hi Hj. apply construct_iri_run in Hc.
  destruct (hr_out_quartile _ _ _ Hc) as [q [Hq _]].
  unfold col. rewrite (get_or_some _ _ _ _ (hr_out_iri _ _ _ Hc)).
  pose proof (iri_not_inf_harmonize O df i Hi) as Ni.
  pose proof (iri_not_inf_harmonize O df j Hj) as Nj.
  destruct (harm_iri O df i) as [| |x]; try discriminate.
  destruct (harm_iri O df j) as [| |y]; try discriminate.
  cbn [fle]. intro Hle. apply Qle_bool_iff in Hle.
  now apply (qcut_buckets_monotone _ _ _ q x y a b Hq).
Qed.

Lemma harmonize_quartiles_ordered_witness :
  bucket (cut_points (nrows harmonize_example) everyone (col harmonize_example_out "iri"))
    (col harmonize_example_out "iri" 4%nat) = Some 0%nat
  /\ bucket (cut_points (nrows harmonize_example) everyone
               (col harmonize_example_out "iri"))
       (col harmonize_example_out "iri" 5%nat) = Some 3%nat
  /\ (0 <= 3)%nat.
Proof.
  assert (A : bucket (cut_points (nrows harmonize_example) everyone
                        (col harmonize_example_out "iri"))
                (col harmonize_example_out "iri" 4%nat) = Some 0%nat)
    by (vm_compute; reflexivity).
  assert (B : bucket (cut_points (nrows harmonize_example) everyone
                        (col harmonize_example_out "iri"))
                (col harmonize_example_out "iri" 5%nat) = Some 3%nat)
    by (vm_compute; reflexivity).
  split; [exact A | split; [exact B|]].
  apply (harmonize_quartiles_ordered approx_ops harmonize_example harmonize_example_out
           4%nat 5%nat 0%nat 3%nat harmonize_example_runs);
    [cbn; lia | cbn; lia | vm_compute; reflexivity | exact A | exact B].
Defined.
